(** * log_victoria: the VictoriaLogs shipper of [internal/logger]

    A shallow embedding of [internal/logger] (interface.go, config.go and the
    VictoriaLogs implementation) and the properties of its delivery, buffering
    and derivation paths.

    Go values are embedded as follows.
    - A Go [map[string]interface{}] is a reference: a [MapRef] is either the
      nil map or the address of a map object in the [heap] of the [World].
      Two references to one address alias the same object.
    - The state shared by a logger and every logger derived from it (buffer
      channel, batch channel, cancel function, the worker goroutine) lives in
      the [World]; a [Logger] record holds the fields that differ between
      instances, the wait group among them.
    - Code that can raise a run-time panic returns [Panic]; everything else
      returns [Ok] with a result and the next [World].
    - The outcome of a delivery attempt is given by an oracle [remote]: what
      the HTTP client returns to the k-th attempt, be it the response of the
      endpoint or a failure to perform the request. The clock is the field
      [now]. *)

From Stdlib Require Import ZArith String List Lia.
From stdpp Require Import gmap strings list fin_maps.

Open Scope string_scope.
Open Scope Z_scope.
Open Scope list_scope.

(** ** Data model (interface.go) *)

Inductive LogLevel := DEBUG | INFO | WARN | ERROR | FATAL.

(** Values of type [interface{}] that the logger meets: the nil interface,
    text, integers, booleans, and a function value (a value [encoding/json]
    has no encoding for). *)
Inductive any :=
| ANil
| AString (s : string)
| AInt (z : Z)
| ABool (b : bool)
| AFunc.

Abbreviation loc := nat (only parsing).
Abbreviation Heap := (gmap nat (gmap string any)) (only parsing).

(** A map value: [None] is the nil map. *)
Definition MapRef := option loc.

Record LogEntry := mkLogEntry {
  Level : LogLevel;
  Message : string;
  Timestamp : Z;
  Service : string;
  TraceID : string;
  UserID : string;
  Fields : MapRef
}.

Definition zeroLogEntry : LogEntry :=
  mkLogEntry DEBUG "" 0 "" "" "" None.

Definition setTraceID (tid : string) (e : LogEntry) : LogEntry :=
  mkLogEntry (Level e) (Message e) (Timestamp e) (Service e) tid (UserID e) (Fields e).

Definition setUserID (uid : string) (e : LogEntry) : LogEntry :=
  mkLogEntry (Level e) (Message e) (Timestamp e) (Service e) (TraceID e) uid (Fields e).

(** Modelled from the spec: the method [LogLevel.String] is called by
    [sendBatch] and is not among the source files; the wire format of the
    spec shows the level by its name. *)
Definition LogLevel_String (l : LogLevel) : string :=
  match l with
  | DEBUG => "DEBUG"
  | INFO => "INFO"
  | WARN => "WARN"
  | ERROR => "ERROR"
  | FATAL => "FATAL"
  end.

(** ** Configuration (config.go) *)

Definition Second : Z := 1000000000.

Record Config := mkConfig {
  VictoriaLogsURL : string;
  ServiceName : string;
  BatchSize : Z;
  FlushInterval : Z;
  MaxRetries : Z;
  Timeout : Z;
  BufferSize : Z;
  Async : bool
}.

Definition DefaultConfig : Config :=
  {| VictoriaLogsURL := "http://localhost:9428/insert/jsonline";
     ServiceName := "default-service";
     BatchSize := 100;
     FlushInterval := 5 * Second;
     MaxRetries := 3;
     Timeout := 30 * Second;
     BufferSize := 1000;
     Async := true |}.

(** ** The wire record and the values around it *)

Record VictoriaLogsEntry := mkVictoriaLogsEntry {
  vlMsg : string;
  vlTime : Z;
  vlStream : string;
  vlLevel : string;
  vlService : string;
  vlTraceId : string;
  vlUserId : string;
  vlFields : MapRef
}.

(** Go [error] values raised or passed on by the logger. *)
Inductive error :=
| ErrBufferFull
| ErrStatus (code : Z)
| ErrTransport (msg : string)
| ErrMarshal.

(** A [context.Context] as the chain of its string-keyed values, innermost
    first. A key of another type never equals the string keys the logger
    looks up, so such bindings are left out. Whether a context is cancelled is
    not part of this value: the cancellation of the logger's own context is
    the field [cancelled] of the [World], and what a cancelled context does to
    a request shows in the outcome of the attempt (see [Response]). *)
Definition Context := list (string * any).

Fixpoint ctx_Value (ctx : Context) (key : string) : any :=
  match ctx with
  | [] => ANil
  | (k, x) :: parent => if String.eqb k key then x else ctx_Value parent key
  end.

Definition WithValue (ctx : Context) (key : string) (x : any) : Context :=
  (key, x) :: ctx.

Definition Background : Context := [].

(** ** The shared state *)

Record Chan (A : Type) := mkChan {
  ch_cap : nat;
  ch_items : list A;
  ch_closed : bool
}.
Arguments mkChan {A} _ _ _.
Arguments ch_cap {A} _.
Arguments ch_items {A} _.
Arguments ch_closed {A} _.

(** The goroutine started by [startAsyncProcessing], with its local [batch]
    while it waits at its [select]. *)
Inductive Worker :=
| NotStarted
| Running (batch : list LogEntry)
| Exited.

(** The outcome of one delivery attempt, as the HTTP client hands it to
    [sendToVictoriaLogs]: a failure to build or perform the request, or the
    status code of the response. A request is made with the context of its
    logger; when that context is cancelled (after [Close], or on a logger
    derived with a cancelled context) the client fails the request without
    reaching the endpoint, which is an outcome [NetError]. *)
Inductive Response :=
| NetError (msg : string)
| HttpStatus (code : Z).

Inductive NetEvent :=
| Attempt (body : list Byte.byte)
| Sleep (d : Z).

(** Lines written to the standard output. *)
Inductive Diag :=
| DSendBatch (batch : list LogEntry)
| DSendLog (entry : LogEntry)
| DError (e : error).

Record World := mkWorld {
  heap : Heap;
  buffer : Chan LogEntry;
  batchChan : Chan (list LogEntry);
  cancelled : bool;
  worker : Worker;
  now : Z;
  remote : nat -> Response;
  net : list NetEvent;
  stdout : list Diag
}.

Definition set_heap (h : Heap) (w : World) : World :=
  mkWorld h (buffer w) (batchChan w) (cancelled w) (worker w) (now w) (remote w) (net w) (stdout w).
Definition set_buffer (c : Chan LogEntry) (w : World) : World :=
  mkWorld (heap w) c (batchChan w) (cancelled w) (worker w) (now w) (remote w) (net w) (stdout w).
Definition set_batchChan (c : Chan (list LogEntry)) (w : World) : World :=
  mkWorld (heap w) (buffer w) c (cancelled w) (worker w) (now w) (remote w) (net w) (stdout w).
Definition set_cancelled (b : bool) (w : World) : World :=
  mkWorld (heap w) (buffer w) (batchChan w) b (worker w) (now w) (remote w) (net w) (stdout w).
Definition set_worker (k : Worker) (w : World) : World :=
  mkWorld (heap w) (buffer w) (batchChan w) (cancelled w) k (now w) (remote w) (net w) (stdout w).
Definition set_now (t : Z) (w : World) : World :=
  mkWorld (heap w) (buffer w) (batchChan w) (cancelled w) (worker w) t (remote w) (net w) (stdout w).
Definition set_net (l : list NetEvent) (w : World) : World :=
  mkWorld (heap w) (buffer w) (batchChan w) (cancelled w) (worker w) (now w) (remote w) l (stdout w).
Definition set_stdout (l : list Diag) (w : World) : World :=
  mkWorld (heap w) (buffer w) (batchChan w) (cancelled w) (worker w) (now w) (remote w) (net w) l.

(** ** The monad of Go code: state and panics *)

Inductive Res (A : Type) :=
| Ok (a : A) (w : World)
| Panic (msg : string).
Arguments Ok {A} _ _.
Arguments Panic {A} _.

Definition M (A : Type) := World -> Res A.

Definition ret {A} (a : A) : M A := fun w => Ok a w.

Definition bind {A B} (c : M A) (k : A -> M B) : M B :=
  fun w => match c w with
           | Ok a w' => k a w'
           | Panic msg => Panic msg
           end.

Definition panic {A} (msg : string) : M A := fun _ => Panic msg.

Definition gets {A} (f : World -> A) : M A := fun w => Ok (f w) w.

Definition modify (f : World -> World) : M unit := fun w => Ok tt (f w).

Notation "'let*' x ':=' c 'in' k" := (bind c (fun x => k))
  (at level 10, x name, c at level 100, k at level 200).
Notation "'do' c 'then' k" := (bind c (fun _ => k))
  (at level 10, c at level 100, k at level 200).

(** ** Maps on the heap *)

Definition map_content (h : Heap) (r : MapRef) : gmap string any :=
  match r with
  | None => ∅
  | Some l => default ∅ (h !! l)
  end.

(** [make(map[string]interface{})]: a new object at an unused address. *)
Definition make_map : M MapRef :=
  fun w => let l := fresh (dom (heap w)) in
           Ok (Some l) (set_heap (<[l := ∅]> (heap w)) w).

(** [m[k] = x]; on the nil map this is a run-time panic. *)
Definition map_assign (r : MapRef) (k : string) (x : any) : M unit :=
  match r with
  | None => panic "assignment to entry in nil map"
  | Some l =>
      modify (fun w => set_heap (<[l := <[k := x]> (map_content (heap w) r)]> (heap w)) w)
  end.

(** [for k, x := range src { dst[k] = x }]. *)
Definition range_assign (dst : MapRef) (src : gmap string any) : M unit :=
  map_fold (fun k x (acc : M unit) => do acc then map_assign dst k x) (ret tt) src.

(** ** Channels, clock, output *)

(** The limits of the runtime on allocations, with the values of a 64-bit
    platform (linux/amd64): the largest allocation (2^48 bytes), the size
    of the header of a channel, and the sizes of a [LogEntry] (an [int], an
    [int64], four strings and a map) and of a slice value. *)
Definition maxAlloc : Z := 281474976710656.
Definition hchanSize : Z := 96.
Definition sizeof_LogEntry : Z := 88.
Definition sizeof_slice : Z := 24.

(** [make(chan T, size)] for elements of [elemSize] bytes: the runtime panics
    when the size is negative or the buffer is beyond what it can allocate.
    An allocation within the limit is taken to succeed. *)
Definition make_chan {A} (elemSize size : Z) : M (Chan A) :=
  if (size <? 0) || (maxAlloc - hchanSize <? elemSize * size)
  then panic "makechan: size out of range"
  else ret (mkChan (Z.to_nat size) [] false).

Definition is_running (k : Worker) : bool :=
  match k with Running _ => true | _ => false end.

Definition is_nil {A} (l : list A) : bool :=
  match l with [] => true | _ => false end.

(** The send case of [select { case v.buffer <- entry: default: }]: the send
    is taken when the buffer has room, or when the channel is unbuffered and
    the worker is parked at its receive; on a closed channel the send panics.
    The result tells whether the entry was sent. *)
Definition buffer_try_send (entry : LogEntry) : M bool :=
  fun w =>
    let c := buffer w in
    if ch_closed c then Panic "send on closed channel"
    else if (length (ch_items c) <? ch_cap c)%nat
            || (is_running (worker w) && is_nil (ch_items c))
         then Ok true (set_buffer (mkChan (ch_cap c) (ch_items c ++ [entry]) false) w)
         else Ok false w.

Definition close_buffer : M unit :=
  fun w =>
    let c := buffer w in
    if ch_closed c then Panic "close of closed channel"
    else Ok tt (set_buffer (mkChan (ch_cap c) (ch_items c) true) w).

Definition close_batchChan : M unit :=
  fun w =>
    let c := batchChan w in
    if ch_closed c then Panic "close of closed channel"
    else Ok tt (set_batchChan (mkChan (ch_cap c) (ch_items c) true) w).

Definition time_Now_UnixNano : M Z := gets now.

(** A Go [int64] product, wrapped to 64 bits. *)
Definition wrap64 (z : Z) : Z := (z + 2 ^ 63) mod 2 ^ 64 - 2 ^ 63.

Definition Duration_mul (n d : Z) : Z := wrap64 (n * d).

Definition time_Sleep (d : Z) : M unit :=
  modify (fun w => set_net (net w ++ [Sleep d]) (set_now (now w + Z.max d 0) w)).

Definition Println (d : Diag) : M unit :=
  modify (fun w => set_stdout (stdout w ++ [d]) w).

(** The bodies of the delivery attempts of a network trace, and its delays,
    both in order. *)
Fixpoint attempts (l : list NetEvent) : list (list Byte.byte) :=
  match l with
  | [] => []
  | Attempt body :: l' => body :: attempts l'
  | Sleep _ :: l' => attempts l'
  end.

Fixpoint delays (l : list NetEvent) : list Z :=
  match l with
  | [] => []
  | Attempt _ :: l' => delays l'
  | Sleep d :: l' => d :: delays l'
  end.

(** ** The logger (VictoriaLogs implementation) *)

(** [encoding/json]'s [Marshal] on a wire record; it reads the record's field
    map from the heap and either yields the encoding or fails. *)
Class Marshaller := json_Marshal : Heap -> VictoriaLogsEntry -> option (list Byte.byte).

(** The wait group of an instance. [wg] is a field by value: the logger that
    [NewVictoriaLogsLogger] returns has the wait group that
    [startAsyncProcessing] counts the worker in, and a struct built by one of
    the derivations, which do not set the field, has the zero wait group,
    which counts nothing. *)
Inductive WaitGroup := WorkerGroup | ZeroGroup.

(** The fields of [VictoriaLogsLogger] that an instance owns. [client],
    [buffer], [batchChan] and [cancel] are the same objects in every instance
    derived from one root and are kept in the [World]. *)
Record Logger := mkLogger {
  config : Config;
  ctx : Context;
  contextFields : MapRef;
  serviceName : string;
  wg : WaitGroup
}.

Inductive Select := OnEntry | OnTick | OnDone.

Section Shipper.
Context `{!Marshaller}.

(** Copies the parent's context fields into the new logger's map. *)
Definition copyContextFields (v newLogger : Logger) : M unit :=
  let* parent := gets (fun w => map_content (heap w) (contextFields v)) in
  range_assign (contextFields newLogger) parent.

Definition WithContext (v : Logger) (c : Context) : M Logger :=
  let* m := make_map in
  let newLogger := mkLogger (config v) c m (serviceName v) ZeroGroup in
  do copyContextFields v newLogger then
  ret newLogger.

Definition WithFields (v : Logger) (fields : MapRef) : M Logger :=
  let* m := make_map in
  let newLogger := mkLogger (config v) (ctx v) m (serviceName v) ZeroGroup in
  do copyContextFields v newLogger then
  let* given := gets (fun w => map_content (heap w) fields) in
  do range_assign (contextFields newLogger) given then
  ret newLogger.

Definition WithService (v : Logger) (service : string) : M Logger :=
  let* m := make_map in
  let newLogger := mkLogger (config v) (ctx v) m service ZeroGroup in
  do copyContextFields v newLogger then
  ret newLogger.

(** One call of [sendToVictoriaLogs]: the attempt is recorded, and its
    outcome decides the error that is returned. The outcome is read from the
    oracle; the context of the request and the timeout of the client act on
    the request inside the HTTP client and are part of that outcome. *)
Definition sendToVictoriaLogs (v : Logger) (data : list Byte.byte) : M (option error) :=
  fun w =>
    let w' := set_net (net w ++ [Attempt data]) w in
    match remote w (length (attempts (net w))) with
    | NetError msg => Ok (Some (ErrTransport msg)) w'
    | HttpStatus code =>
        if 400 <=? code then Ok (Some (ErrStatus code)) w' else Ok None w'
    end.

Definition toVictoriaLogsEntry (entry : LogEntry) : VictoriaLogsEntry :=
  {| vlMsg := Message entry;
     vlTime := Timestamp entry;
     vlStream := "";
     vlLevel := LogLevel_String (Level entry);
     vlService := Service entry;
     vlTraceId := TraceID entry;
     vlUserId := UserID entry;
     vlFields := Fields entry |}.

Definition newline : Byte.byte := Byte.x0a.

(** The conversion loop of [sendBatch]: one line per entry that marshals, in
    the order of the batch; an entry that does not marshal is reported on the
    standard output and passed over. *)
Fixpoint encodeBatch (batch : list LogEntry) (buff : list Byte.byte) : M (list Byte.byte) :=
  match batch with
  | [] => ret buff
  | entry :: rest =>
      let vlEntry := toVictoriaLogsEntry entry in
      let* r := gets (fun w => json_Marshal (heap w) vlEntry) in
      do (match r with
          | None => Println (DError ErrMarshal)
          | Some _ => ret tt
          end) then
      do Println (DSendLog entry) then
      match r with
      | None => encodeBatch rest buff
      | Some data => encodeBatch rest (buff ++ data ++ [newline])
      end
  end.

(** The retry loop of [sendBatch], [for i := 0; i < MaxRetries; i++]: [n]
    iterations remain and the loop variable is [i]. *)
Fixpoint retryLoop (v : Logger) (data : list Byte.byte) (n : nat) (i : Z) : M unit :=
  match n with
  | O => ret tt
  | S n' =>
      let* err := sendToVictoriaLogs v data in
      match err with
      | None => ret tt
      | Some e =>
          do Println (DError e) then
          do time_Sleep (Duration_mul (i + 1) Second) then
          retryLoop v data n' (i + 1)
      end
  end.

Definition sendBatch (v : Logger) (batch : list LogEntry) : M unit :=
  do Println (DSendBatch batch) then
  if (length batch =? 0)%nat then ret tt
  else
    let* buff := encodeBatch batch [] in
    retryLoop v buff (Z.to_nat (MaxRetries (config v))) 0.

Definition createLogEntry (v : Logger) (level : LogLevel) (msg : string)
    (fields : MapRef) : M LogEntry :=
  let* t := time_Now_UnixNano in
  let entry := mkLogEntry level msg t (serviceName v) "" "" fields in
  let* own := gets (fun w => map_content (heap w) (contextFields v)) in
  do range_assign (Fields entry) own then
  ret entry.

Definition assert_string (x : any) : option string :=
  match x with AString s => Some s | _ => None end.

Definition any_is_nil (x : any) : bool :=
  match x with ANil => true | _ => false end.

(** The correlation lookups of [log]. *)
Definition withTrace (c : Context) (entry : LogEntry) : LogEntry :=
  let traceID := ctx_Value c "trace_id" in
  if any_is_nil traceID then entry
  else match assert_string traceID with
       | Some tid => setTraceID tid entry
       | None => entry
       end.

Definition withUser (c : Context) (entry : LogEntry) : LogEntry :=
  let userId := ctx_Value c "user_id" in
  if any_is_nil userId then entry
  else match assert_string userId with
       | Some uid => setUserID uid entry
       | None => entry
       end.

(** The entry that [log] builds before it hands it over. *)
Definition logEntry (v : Logger) (c : Context) (info : LogLevel) (msg : string)
    (fields : MapRef) : M LogEntry :=
  let* entry := createLogEntry v info msg fields in
  ret (withUser c (withTrace c entry)).

(** The hand-over at the end of [log]. *)
Definition offer (v : Logger) (entry : LogEntry) : M unit :=
  if Async (config v) then
    let* sent := buffer_try_send entry in ret tt
  else sendBatch v [entry].

Definition log (v : Logger) (c : Context) (info : LogLevel) (msg : string)
    (fields : MapRef) : M unit :=
  let* entry := logEntry v c info msg fields in
  offer v entry.

Definition Debug v c msg fields := log v c DEBUG msg fields.
Definition Info v c msg fields := log v c INFO msg fields.
Definition Warn v c msg fields := log v c WARN msg fields.
Definition Error v c msg fields := log v c ERROR msg fields.
Definition Fatal v c msg fields := log v c FATAL msg fields.

Fixpoint batchLogAsync (entries : list LogEntry) : M (option error) :=
  match entries with
  | [] => ret None
  | entry :: rest =>
      let* sent := buffer_try_send entry in
      if sent then batchLogAsync rest else ret (Some ErrBufferFull)
  end.

Definition BatchLog (v : Logger) (entries : list LogEntry) : M (option error) :=
  if Async (config v) then batchLogAsync entries
  else do sendBatch v entries then ret None.

(** ** The worker and the lifecycle *)

Definition flushIfAny (v : Logger) (batch : list LogEntry) : M unit :=
  if (0 <? length batch)%nat then sendBatch v batch else ret tt.

(** One round of the worker's [select], taking the given case. A case that is
    not ready (no entry to receive, no cancellation) leaves the world as it
    is, and so does a round when no worker is running. A receive on the closed
    and empty buffer yields the zero entry. *)
Definition workerStep (v : Logger) (s : Select) : M unit :=
  fun w =>
    match worker w with
    | Running batch =>
        match s with
        | OnEntry =>
            let c := buffer w in
            match ch_items c with
            | entry :: rest =>
                (do sendBatch v (batch ++ [entry]) then
                 modify (set_worker (Running [])))
                  (set_buffer (mkChan (ch_cap c) rest (ch_closed c)) w)
            | [] =>
                if ch_closed c then
                  (do sendBatch v (batch ++ [zeroLogEntry]) then
                   modify (set_worker (Running []))) w
                else Ok tt w
            end
        | OnTick =>
            (do flushIfAny v batch then modify (set_worker (Running []))) w
        | OnDone =>
            if cancelled w then
              (do flushIfAny v batch then modify (set_worker Exited)) w
            else Ok tt w
        end
    | _ => Ok tt w
    end.

Fixpoint workerRun (v : Logger) (ss : list Select) : M unit :=
  match ss with
  | [] => ret tt
  | s :: ss' => do workerStep v s then workerRun v ss'
  end.

(** [time.NewTicker]: the interval has to be positive. *)
Definition time_NewTicker (d : Z) : M unit :=
  if d <=? 0 then panic "non-positive interval for NewTicker" else ret tt.

(** [make([]LogEntry, 0, v.config.BatchSize)]: the runtime panics when the
    capacity is negative or beyond what it can allocate. *)
Definition NewLoggerEntryBatch (v : Logger) : M (list LogEntry) :=
  if (BatchSize (config v) <? 0) || (maxAlloc <? sizeof_LogEntry * BatchSize (config v))
  then panic "makeslice: cap out of range"
  else ret [].

(** [startAsyncProcessing] starts the worker goroutine, which makes its ticker
    and its first batch and then waits at its [select]. The goroutine is taken
    in the schedule in which it reaches the [select] before its starter goes
    on. A panic of the ticker or of the batch is raised in the goroutine; it
    ends the program like every panic, and is the outcome of the run here. *)
Definition startAsyncProcessing (v : Logger) : M unit :=
  do time_NewTicker (FlushInterval (config v)) then
  let* batch := NewLoggerEntryBatch v in
  modify (set_worker (Running batch)).

Definition NewVictoriaLogsLogger (cfg : option Config) : M (Logger * option error) :=
  let config := default DefaultConfig cfg in
  do modify (set_cancelled false) then
  let* buf := make_chan sizeof_LogEntry (BufferSize config) in
  let* bch := make_chan sizeof_slice (BufferSize config) in
  do modify (fun w => set_worker NotStarted (set_batchChan bch (set_buffer buf w))) then
  let* m := make_map in
  let logger := mkLogger config Background m (ServiceName config) WorkerGroup in
  do (if Async config then startAsyncProcessing logger else ret tt) then
  ret (logger, None).

(** [v.wg.Wait()]. On the wait group of the worker the call returns when the
    worker has exited: the worker, if it runs, takes the rounds [ss] that it
    still wins before it sees the cancellation, and then the cancellation. On
    the zero wait group of a derived logger the call returns at once, and the
    worker goes on as it is. *)
Definition wg_Wait (v : Logger) (ss : list Select) : M unit :=
  match wg v with
  | WorkerGroup => do workerRun v ss then workerStep v OnDone
  | ZeroGroup => ret tt
  end.

Definition Close (v : Logger) (ss : list Select) : M (option error) :=
  do modify (set_cancelled true) then
  do wg_Wait v ss then
  do close_buffer then
  do close_batchChan then
  ret None.

End Shipper.

(** ** Observing a run *)

Definition eval {A} (c : M A) (w : World) : option A :=
  match c w with
  | Ok a _ => Some a
  | Panic _ => None
  end.

Definition exec {A} (c : M A) (w : World) : option World :=
  match c w with
  | Ok _ w' => Some w'
  | Panic _ => None
  end.

Definition panics {A} (c : M A) (w : World) : Prop :=
  exists msg, c w = Panic msg.

(** Delivery changes the clock, the network trace and the standard output,
    and nothing else: the rest is what [same_shared] keeps. *)
Definition same_shared (w w' : World) : Prop :=
  heap w' = heap w /\ buffer w' = buffer w /\ batchChan w' = batchChan w /\
  cancelled w' = cancelled w /\ worker w' = worker w /\ remote w' = remote w.

(** An outcome that [sendToVictoriaLogs] turns into an error. *)
Definition fails (r : Response) : bool :=
  match r with
  | NetError _ => true
  | HttpStatus code => 400 <=? code
  end.

(** The error that [sendToVictoriaLogs] returns on such an outcome. *)
Definition errorOf (r : Response) : error :=
  match r with
  | NetError msg => ErrTransport msg
  | HttpStatus code => ErrStatus code
  end.

(** The trace of [n] failed rounds of the retry loop that start at [i]. *)
Fixpoint failedRounds (data : list Byte.byte) (n : nat) (i : Z) : list NetEvent :=
  match n with
  | O => []
  | S n' => Attempt data :: Sleep (Duration_mul (i + 1) Second)
              :: failedRounds data n' (i + 1)
  end.

(** The world after a failed round of the retry loop in which the loop
    variable is [i]: the attempt, the error on the standard output, the
    delay. *)
Definition failedRound (data : list Byte.byte) (i : Z) (e : error) (w : World) : World :=
  set_net ((net w ++ [Attempt data]) ++ [Sleep (Duration_mul (i + 1) Second)])
    (set_now (now w + Z.max (Duration_mul (i + 1) Second) 0)
       (set_stdout (stdout w ++ [DError e]) w)).

Section PayloadOf.
Context `{!Marshaller}.

(** The line of one entry in the payload: its encoding and a newline, or
    nothing when the entry does not marshal. *)
Definition lineOf (h : Heap) (entry : LogEntry) : list Byte.byte :=
  match json_Marshal h (toVictoriaLogsEntry entry) with
  | Some data => data ++ [newline]
  | None => []
  end.

Definition payload (h : Heap) (batch : list LogEntry) : list Byte.byte :=
  concat (map (lineOf h) batch).

(** The lines that the conversion loop of [sendBatch] prints for a batch: for
    each entry the error of [json.Marshal], if there is one, and the entry. *)
Definition conversionLines (h : Heap) (batch : list LogEntry) : list Diag :=
  flat_map (fun entry =>
              match json_Marshal h (toVictoriaLogsEntry entry) with
              | Some _ => [DSendLog entry]
              | None => [DError ErrMarshal; DSendLog entry]
              end) batch.

End PayloadOf.

(** The lines that the retry loop prints over [n] failed attempts, the first
    of which is the attempt number [k]: the error of each attempt. *)
Definition failureLines (r : nat -> Response) (k n : nat) : list Diag :=
  map (fun j => DError (errorOf (r (k + j)%nat))) (seq 0 n).

(** ** Derivation and production, as the properties speak of them *)

(** The text that a correlation lookup takes from a context value. *)
Definition textOf (x : any) : string :=
  match x with
  | AString s => s
  | _ => ""
  end.

(** The three derivation operations of [ContextLogger]. *)
Inductive Derivation :=
| ByFields (fields : MapRef)
| ByService (service : string)
| ByContext (c : Context).

Definition derive (v : Logger) (d : Derivation) : M Logger :=
  match d with
  | ByFields fields => WithFields v fields
  | ByService service => WithService v service
  | ByContext c => WithContext v c
  end.

Definition givenFields (h : Heap) (d : Derivation) : gmap string any :=
  match d with
  | ByFields fields => map_content h fields
  | _ => ∅
  end.

(** A reference that is nil or points to an object of the heap. *)
Definition valid_ref (h : Heap) (r : MapRef) : Prop :=
  match r with
  | None => True
  | Some l => l ∈ dom h
  end.

(** An entry as a logger produces it, with the bindings of its field map. *)
Definition produced (v : Logger) (level : LogLevel) (msg : string) (fields : MapRef)
    : M (LogEntry * gmap string any) :=
  let* e := createLogEntry v level msg fields in
  let* m := gets (fun w => map_content (heap w) (Fields e)) in
  ret (e, m).

(** The batches that [sendBatch] was called with, in order: each call starts
    by printing its batch. *)
Fixpoint flushes (out : list Diag) : list (list LogEntry) :=
  match out with
  | [] => []
  | DSendBatch batch :: out' => batch :: flushes out'
  | _ :: out' => flushes out'
  end.

(** ** Producers and worker together *)

(** A step of the whole system: a producer hands over an entry, or the worker
    takes a round of its [select]. *)
Inductive Step :=
| Submit (entry : LogEntry)
| Work (s : Select).

Fixpoint submitted (sts : list Step) : list LogEntry :=
  match sts with
  | [] => []
  | Submit entry :: sts' => entry :: submitted sts'
  | Work _ :: sts' => submitted sts'
  end.

Section Schedules.
Context `{!Marshaller}.

Definition runStep (v : Logger) (st : Step) : M unit :=
  match st with
  | Submit entry => offer v entry
  | Work s => workerStep v s
  end.

Fixpoint runSteps (v : Logger) (sts : list Step) : M unit :=
  match sts with
  | [] => ret tt
  | st :: sts' => do runStep v st then runSteps v sts'
  end.

End Schedules.

(** What a round of the worker keeps, whatever the case taken. *)
Definition same_lifecycle (w w' : World) : Prop :=
  heap w' = heap w /\ ch_closed (buffer w') = ch_closed (buffer w) /\
  ch_cap (buffer w') = ch_cap (buffer w) /\ batchChan w' = batchChan w /\
  cancelled w' = cancelled w /\ remote w' = remote w.

(** The running system of the scenario: asynchronous mode, at least one
    attempt per batch, the worker waiting with an empty batch, the buffer
    open, no cancellation, and an endpoint that accepts every request. *)
Definition steady (v : Logger) (w : World) : Prop :=
  Async (config v) = true /\ 0 < MaxRetries (config v) /\
  worker w = Running [] /\ ch_closed (buffer w) = false /\
  cancelled w = false /\ (forall k, fails (remote w k) = false).

(** ** Sample worlds and loggers *)

(** The world before a logger is constructed: an empty heap, the endpoint
    [r] and the clock at [t]. *)
Definition boot (r : nat -> Response) (t : Z) : World :=
  mkWorld ∅ (mkChan 0 [] false) (mkChan 0 [] false) false NotStarted t r [] [].

Definition alwaysDown : nat -> Response := fun _ => NetError "connection refused".

Definition alwaysUp : nat -> Response := fun _ => HttpStatus 200.

(** An endpoint that answers 503 to its first [n] requests and 200 after. *)
Definition upAfter (n : nat) : nat -> Response :=
  fun k => if (k <? n)%nat then HttpStatus 503 else HttpStatus 200.

Definition hasFunc (m : gmap string any) : bool :=
  map_fold (fun _ x b => match x with AFunc => true | _ => b end) false m.

(** A marshaller for the sample runs: it refuses a record whose fields hold a
    function value, as [encoding/json] does, and otherwise writes the
    message. *)
Definition plainMarshal : Marshaller :=
  fun h e => if hasFunc (map_content h (vlFields e)) then None
             else Some (list_byte_of_string (vlMsg e)).

(** The configuration of [main]. *)
Definition demoConfig : Config :=
  {| VictoriaLogsURL := "http://localhost:9428/insert/jsonline";
     ServiceName := "demo-api";
     BatchSize := 50;
     FlushInterval := 3 * Second;
     MaxRetries := 3;
     Timeout := 5 * Second;
     BufferSize := 500;
     Async := true |}.

Definition syncConfig : Config :=
  {| VictoriaLogsURL := "http://localhost:9428/insert/jsonline";
     ServiceName := "demo-api";
     BatchSize := 50;
     FlushInterval := 3 * Second;
     MaxRetries := 3;
     Timeout := 5 * Second;
     BufferSize := 500;
     Async := false |}.

(** The logger that [NewVictoriaLogsLogger] returns in [boot], and the world
    it leaves. *)
Definition rootLogger (cfg : Config) : Logger :=
  mkLogger cfg Background (Some 0%nat) (ServiceName cfg) WorkerGroup.

Definition started (cfg : Config) (r : nat -> Response) (t : Z) : World :=
  match NewVictoriaLogsLogger (Some cfg) (boot r t) with
  | Ok _ w => w
  | Panic _ => boot r t
  end.

Definition sampleEntry (msg : string) : LogEntry :=
  mkLogEntry INFO msg 0 "demo-api" "" "" None.

(** A map literal [map[string]interface{}{...}] with the bindings [m]. *)
Definition map_literal (m : gmap string any) : M MapRef :=
  fun w => let l := fresh (dom (heap w)) in
           Ok (Some l) (set_heap (<[l := m]> (heap w)) w).

(** The world and the result of a run that does not panic. *)
Definition after {A} (c : M A) (w : World) : World :=
  match c w with
  | Ok _ w' => w'
  | Panic _ => w
  end.

Definition resultOf {A} (d : A) (c : M A) (w : World) : A :=
  match c w with
  | Ok a _ => a
  | Panic _ => d
  end.

(** A one-slot buffer, and the world in which it is taken. *)
Definition tinyConfig : Config :=
  {| VictoriaLogsURL := "http://localhost:9428/insert/jsonline";
     ServiceName := "demo-api";
     BatchSize := 50;
     FlushInterval := 3 * Second;
     MaxRetries := 3;
     Timeout := 5 * Second;
     BufferSize := 1;
     Async := true |}.

Section Samples.
Context `{!Marshaller}.

Definition saturated : World :=
  after (BatchLog (rootLogger tinyConfig) [sampleEntry "first"])
        (started tinyConfig alwaysUp 0).

(** The custom logger of the README:
    [logger.WithFields(map[string]interface{}{"module": "user-service"})
           .WithService("user-api")]. *)
Definition customLogger : M Logger :=
  let* fields := map_literal {[ "module" := AString "user-service" ]} in
  let* withModule := WithFields (rootLogger demoConfig) fields in
  WithService withModule "user-api".

Definition userLogger : Logger :=
  resultOf (rootLogger demoConfig) customLogger (started demoConfig alwaysUp 0).

Definition userWorld : World :=
  after customLogger (started demoConfig alwaysUp 0).

(** The caller's map [{"username": "johndoe"}] in the world of [userLogger]. *)
Definition callerFields : MapRef :=
  resultOf None (map_literal {[ "username" := AString "johndoe" ]}) userWorld.

Definition callerWorld : World :=
  after (map_literal {[ "username" := AString "johndoe" ]}) userWorld.

(** A world whose map at address 1 holds a function value, and a batch whose
    second entry carries that map. *)
Definition funcWorld : World :=
  after (map_literal {[ "callback" := AFunc ]}) (started syncConfig alwaysUp 0).

Definition mixedBatch : list LogEntry :=
  [sampleEntry "first";
   mkLogEntry INFO "second" 0 "demo-api" "" "" (Some 1%nat);
   sampleEntry "third"].

(** Ten entries in a burst: the worker takes rounds between the hand-overs
    and drains the buffer after them. *)
Definition tenEntries : list LogEntry :=
  map sampleEntry ["log 1"; "log 2"; "log 3"; "log 4"; "log 5";
                   "log 6"; "log 7"; "log 8"; "log 9"; "log 10"].

Definition burst : list Step :=
  map Submit (take 5 tenEntries)
  ++ [Work OnEntry; Work OnTick; Work OnEntry]
  ++ map Submit (drop 5 tenEntries)
  ++ replicate 8 (Work OnEntry).

End Samples.

(** ** [Flush] *)

Definition Millisecond : Z := 1000000.

(** [len(ch)]: the number of buffered elements; an unbuffered channel holds
    none. *)
Definition chan_len {A} (c : Chan A) : nat :=
  if (ch_cap c =? 0)%nat then 0%nat else length (ch_items c).

(** The number of arrival rounds among the rounds of the worker. *)
Fixpoint arrivals (ss : list Select) : nat :=
  match ss with
  | [] => 0%nat
  | OnEntry :: ss' => S (arrivals ss')
  | _ :: ss' => arrivals ss'
  end.

Section Flushing.
Context `{!Marshaller}.

(** The polling loop of [Flush], [for len(v.buffer) > 0 { time.Sleep(...) }].
    Each element of [rounds] is what the worker does during one sleep. The
    result tells whether the loop was left; it is [false] when the loop is
    still polling after the last of the rounds. *)
Fixpoint flushLoop (v : Logger) (rounds : list (list Select)) {struct rounds} : M bool :=
  fun w =>
    if (0 <? chan_len (buffer w))%nat then
      match rounds with
      | [] => Ok false w
      | ss :: rounds' =>
          (do time_Sleep (100 * Millisecond) then
           do workerRun v ss then
           flushLoop v rounds') w
      end
    else Ok true w.

(** [Flush]: [Some None] is the nil error that [Flush] returns; [None] means
    that [Flush] has not returned within the given rounds. *)
Definition Flush (v : Logger) (rounds : list (list Select)) : M (option (option error)) :=
  if negb (Async (config v)) then ret (Some None)
  else
    let* left := flushLoop v rounds in
    ret (if left then Some None else None).

End Flushing.

(** ** The user service (internal/service) *)

Record User := mkUser {
  ID : string;
  Username : string;
  Email : string
}.

Record UserService := mkUserService {
  logger : Logger
}.

Definition NewUserService (l : Logger) : UserService := mkUserService l.

(** [time.Since(start).Milliseconds()] on the clock of the world. *)
Definition sinceMilliseconds (start : Z) : M Z :=
  let* t := gets now in
  ret (Z.quot (t - start) Millisecond).

Section Service.
Context `{!Marshaller}.

(** [CreateUser] on the user record that its pointer argument points to. The
    returned error is given by its message. *)
Definition CreateUser (s : UserService) (c : Context) (user : User) : M (option string) :=
  let* start := gets now in
  let* startFields := map_literal (list_to_map
                    [("user_id", AString (ID user));
                     ("username", AString (Username user));
                     ("email", AString (Email user));
                     ("action", AString "create_user_start")]) in
  do Info (logger s) c "Create new User" startFields then
  do time_Sleep (100 * Millisecond) then
  if String.eqb (Username user) "invalid" then
    let* d := sinceMilliseconds start in
    let* failFields := map_literal (list_to_map
                     [("user_id", AString (ID user));
                      ("username", AString (Username user));
                      ("action", AString "create_user_error");
                      ("duration", AInt d)]) in
    do Error (logger s) c "Failed to create user" failFields then
    ret (Some "failed to create user")
  else
    let* d := sinceMilliseconds start in
    let* doneFields := map_literal (list_to_map
                   [("user_id", AString (ID user));
                    ("username", AString (Username user));
                    ("action", AString "create_user_success");
                    ("duration", AInt d)]) in
    do Info (logger s) c "Create new User" doneFields then
    ret None.

Definition GetUser (s : UserService) (c : Context) (id : string)
    : M (option User * option string) :=
  let* start := gets now in
  let* startFields := map_literal (list_to_map
                    [("user_id", AString id);
                     ("action", AString "get_user_start")]) in
  do Debug (logger s) c "Get User" startFields then
  do time_Sleep (100 * Millisecond) then
  let user := mkUser id "Demo User" "demo@example.com" in
  let* d := sinceMilliseconds start in
  let* doneFields := map_literal (list_to_map
                 [("user_id", AString (ID user));
                  ("username", AString (Username user));
                  ("action", AString "get_user_success");
                  ("duration", AInt d)]) in
  do Info (logger s) c "Get User" doneFields then
  ret (Some user, None).

End Service.

(** ** More sample worlds *)

Section MoreSamples.
Context `{!Marshaller}.

(** The world of [main] after three log calls that the worker has not yet
    taken up. *)
Definition backlog : World :=
  after (BatchLog (rootLogger demoConfig)
           [sampleEntry "one"; sampleEntry "two"; sampleEntry "three"])
        (started demoConfig alwaysUp 0).

End MoreSamples.


(** * Properties *)

(** ** Maps on the heap *)

Lemma set_heap_same w : set_heap (heap w) w = w.
Proof. by destruct w. Qed.

Lemma set_heap_twice h1 h2 w : set_heap h2 (set_heap h1 w) = set_heap h2 w.
Proof. reflexivity. Qed.

Lemma map_content_insert_eq (h : gmap nat (gmap string any)) l m :
  map_content (<[l := m]> h) (Some l) = m.
Proof. unfold map_content. by rewrite lookup_insert_eq. Qed.

Lemma map_content_insert_ne (h : gmap nat (gmap string any)) l m r :
  r <> Some l -> map_content (<[l := m]> h) r = map_content h r.
Proof.
  intros Hne. destruct r as [l'|]; [|done].
  unfold map_content. rewrite lookup_insert_ne; [done|congruence].
Qed.

(** A range-assignment into a made map leaves every other object alone and
    puts the source's bindings over the old ones. *)
Lemma range_assign_made l (src : gmap string any) w :
  exists h',
    range_assign (Some l) src w = Ok tt (set_heap h' w) /\
    map_content h' (Some l) = src ∪ map_content (heap w) (Some l) /\
    (forall r, r <> Some l -> map_content h' r = map_content (heap w) r) /\
    (forall l', l' ∈ dom (heap w) -> l' ∈ dom h').
Proof.
  unfold range_assign. revert w.
  apply (map_fold_weak_ind (fun (r : M unit) (m : gmap string any) =>
    forall w, exists h',
      r w = Ok tt (set_heap h' w) /\
      map_content h' (Some l) = m ∪ map_content (heap w) (Some l) /\
      (forall r, r <> Some l -> map_content h' r = map_content (heap w) r) /\
      (forall l', l' ∈ dom (heap w) -> l' ∈ dom h'))).
  - intros w. exists (heap w). rewrite set_heap_same.
    repeat split; auto. by rewrite (left_id_L ∅ (∪)).
  - intros k x m r Hk IH w. destruct (IH w) as (h1 & Hr & Hc & Hf & Hd).
    exists (<[l := <[k := x]> (map_content h1 (Some l))]> h1).
    unfold bind. rewrite Hr. split; [reflexivity|]. repeat split.
    + rewrite map_content_insert_eq, Hc. by rewrite insert_union_l.
    + intros r' Hne. rewrite map_content_insert_ne by done. by apply Hf.
    + intros l' Hl'. rewrite dom_insert_L. apply Hd in Hl'. set_solver.
Qed.

(** A range-assignment into the nil map panics as soon as the source has a
    binding. *)
Lemma range_assign_nil (src : gmap string any) w :
  (src = ∅ /\ range_assign None src w = Ok tt w) \/
  (src <> ∅ /\ range_assign None src w = Panic "assignment to entry in nil map").
Proof.
  unfold range_assign. revert w.
  apply (map_fold_weak_ind (fun (r : M unit) (m : gmap string any) =>
    forall w, (m = ∅ /\ r w = Ok tt w) \/
              (m <> ∅ /\ r w = Panic "assignment to entry in nil map"))).
  - intros w. by left.
  - intros k x m r Hk IH w. right. split; [apply insert_non_empty|].
    unfold bind. by destruct (IH w) as [[_ ->]|[_ ->]].
Qed.

Lemma range_assign_nil_empty w : range_assign None ∅ w = Ok tt w.
Proof. by destruct (range_assign_nil ∅ w) as [[_ ?]|[? _]]. Qed.

Lemma range_assign_nil_bound (src : gmap string any) w :
  src <> ∅ -> range_assign None src w = Panic "assignment to entry in nil map".
Proof. intros Hne. by destruct (range_assign_nil src w) as [[? _]|[_ ?]]. Qed.

(** ** Delivery: what [sendBatch] touches *)

Lemma same_shared_refl w : same_shared w w.
Proof. by repeat split. Qed.

Lemma same_shared_trans w1 w2 w3 :
  same_shared w1 w2 -> same_shared w2 w3 -> same_shared w1 w3.
Proof.
  unfold same_shared. intros (?&?&?&?&?&?) (?&?&?&?&?&?).
  repeat split; congruence.
Qed.

Lemma same_shared_stdout out w : same_shared w (set_stdout out w).
Proof. by repeat split. Qed.

Lemma same_shared_net l w : same_shared w (set_net l w).
Proof. by repeat split. Qed.

Lemma failedRound_shared data i e w : same_shared w (failedRound data i e w).
Proof. by repeat split. Qed.

Create HintDb shipper.
#[local] Hint Resolve same_shared_refl same_shared_stdout same_shared_net
  failedRound_shared : shipper.

(** Chains the frames of consecutive runs. *)
Ltac chain_shared :=
  solve [ eauto with shipper
        | eapply same_shared_trans;
          [ solve [ eassumption | apply failedRound_shared
                  | apply same_shared_stdout | apply same_shared_net ] | ];
          chain_shared ].

Lemma attempts_app l1 l2 : attempts (l1 ++ l2) = attempts l1 ++ attempts l2.
Proof.
  induction l1 as [|[body|d] l1 IH]; simpl; [done| |done]. by rewrite IH.
Qed.

Lemma delays_app l1 l2 : delays (l1 ++ l2) = delays l1 ++ delays l2.
Proof.
  induction l1 as [|[body|d] l1 IH]; simpl; [done|done|]. by rewrite IH.
Qed.

Lemma flushes_app o1 o2 : flushes (o1 ++ o2) = flushes o1 ++ flushes o2.
Proof.
  induction o1 as [|[b|e|e] o1 IH]; simpl; [done| |done|done]. by rewrite IH.
Qed.

Lemma attempts_failedRounds data n i :
  attempts (failedRounds data n i) = replicate n data.
Proof. revert i. induction n as [|n IH]; intros i; simpl; [done|]. by rewrite IH. Qed.

Lemma delays_failedRounds data n i :
  delays (failedRounds data n i) =
  map (fun j => Duration_mul (i + Z.of_nat j + 1) Second) (seq 0 n).
Proof.
  revert i. induction n as [|n IH]; intros i; simpl; [done|].
  f_equal; [f_equal; lia|].
  rewrite IH, <- seq_shift, map_map. apply map_ext. intros j. f_equal. lia.
Qed.

Lemma Duration_mul_seconds n :
  0 <= n <= 9223372036 -> Duration_mul n Second = n * Second.
Proof.
  intros Hn. unfold Duration_mul, wrap64, Second.
  rewrite Z.mod_small; lia.
Qed.

Lemma failedRound_net data i e w :
  net (failedRound data i e w)
  = net w ++ [Attempt data; Sleep (Duration_mul (i + 1) Second)].
Proof. unfold failedRound. simpl. by rewrite <- app_assoc. Qed.

Lemma failedRound_attempts data i e w k :
  (length (attempts (net (failedRound data i e w))) + k)%nat
  = (length (attempts (net w)) + S k)%nat.
Proof. rewrite failedRound_net, attempts_app, length_app. simpl. lia. Qed.

Lemma failedRound_flushes data i e w :
  flushes (stdout (failedRound data i e w)) = flushes (stdout w).
Proof. unfold failedRound. simpl. rewrite flushes_app. simpl. by rewrite app_nil_r. Qed.

Section Delivery.
Context `{!Marshaller}.

(** A round of the retry loop: either the attempt succeeds and the loop
    returns, or it fails and the loop goes on from [failedRound]. *)
Lemma retryLoop_round v data n i w :
  (fails (remote w (length (attempts (net w)))) = false /\
   retryLoop v data (S n) i w = Ok tt (set_net (net w ++ [Attempt data]) w)) \/
  (exists e, fails (remote w (length (attempts (net w)))) = true /\
             retryLoop v data (S n) i w
             = retryLoop v data n (i + 1) (failedRound data i e w)).
Proof.
  cbn [retryLoop]. unfold bind, sendToVictoriaLogs.
  destruct (remote w (length (attempts (net w)))) as [msg|code]; simpl.
  - right. eauto.
  - destruct (400 <=? code); [right|left]; eauto.
Qed.

(** When the next [n] attempts fail, the retry loop runs all its [n] rounds:
    an attempt and the delay after it, each time. *)
Lemma retryLoop_failing v data n : forall i w,
  (forall k, (k < n)%nat -> fails (remote w (length (attempts (net w)) + k)%nat) = true) ->
  exists w', retryLoop v data n i w = Ok tt w' /\
             net w' = net w ++ failedRounds data n i /\ same_shared w w'.
Proof.
  induction n as [|n IH]; intros i w Hfail.
  - exists w. simpl. rewrite app_nil_r. auto with shipper.
  - destruct (retryLoop_round v data n i w) as [[Hok _]|(e & _ & ->)].
    { rewrite <- (Nat.add_0_r (length _)), Hfail in Hok by lia. done. }
    destruct (IH (i + 1) (failedRound data i e w)) as (w' & Hrun & Hnet & Hsh).
    { intros k Hk. rewrite failedRound_attempts. apply Hfail. lia. }
    exists w'. split; [exact Hrun|]. split; [|chain_shared].
    rewrite Hnet, failedRound_net. simpl. by rewrite <- app_assoc.
Qed.

(** When the next attempt succeeds after [m] failed ones and the loop has
    more than [m] rounds, the loop stops right after the successful attempt. *)
Lemma retryLoop_succeeding v data m : forall n i w,
  (m < n)%nat ->
  (forall k, (k < m)%nat -> fails (remote w (length (attempts (net w)) + k)%nat) = true) ->
  fails (remote w (length (attempts (net w)) + m)%nat) = false ->
  exists w', retryLoop v data n i w = Ok tt w' /\
             net w' = net w ++ failedRounds data m i ++ [Attempt data] /\
             same_shared w w'.
Proof.
  induction m as [|m IH]; intros n i w Hn Hfail Hok;
    (destruct n as [|n]; [lia|]);
    destruct (retryLoop_round v data n i w) as [[Hup ->]|(e & Hdown & ->)].
  - eexists. split; [reflexivity|]. split; [done|auto with shipper].
  - rewrite Nat.add_0_r in Hok. congruence.
  - rewrite <- (Nat.add_0_r (length _)), Hfail in Hup by lia. done.
  - destruct (IH n (i + 1) (failedRound data i e w)) as (w' & Hrun & Hnet & Hsh).
    + lia.
    + intros k Hk. rewrite failedRound_attempts. apply Hfail. lia.
    + by rewrite failedRound_attempts.
    + exists w'. split; [exact Hrun|]. split; [|chain_shared].
      rewrite Hnet, failedRound_net. simpl. by rewrite <- app_assoc.
Qed.

(** The retry loop always returns: it makes at most [n] attempts, all with
    the same body, and its first round is an attempt. *)
Lemma retryLoop_total v data n : forall i w,
  exists w' tr, retryLoop v data n i w = Ok tt w' /\
                net w' = net w ++ tr /\ same_shared w w' /\
                flushes (stdout w') = flushes (stdout w) /\
                (length (attempts tr) <= n)%nat /\
                attempts tr = replicate (length (attempts tr)) data /\
                (forall n', n = S n' -> exists tr', tr = Attempt data :: tr').
Proof.
  induction n as [|n IH]; intros i w.
  - exists w, []. rewrite app_nil_r. simpl.
    repeat split; auto with shipper. discriminate.
  - destruct (retryLoop_round v data n i w) as [[_ ->]|(e & _ & ->)].
    + exists (set_net (net w ++ [Attempt data]) w), [Attempt data].
      simpl. repeat split; eauto with shipper; lia.
    + destruct (IH (i + 1) (failedRound data i e w))
        as (w' & tr & Hrun & Hnet & Hsh & Hfl & Hlen & Hrep & _).
      exists w', (Attempt data :: Sleep (Duration_mul (i + 1) Second) :: tr).
      split; [exact Hrun|]. split.
      { rewrite Hnet, failedRound_net. by rewrite <- app_assoc. }
      split; [chain_shared|]. split; [by rewrite Hfl, failedRound_flushes|].
      simpl. split; [lia|]. split; [by f_equal|]. eauto.
Qed.

End Delivery.

(** ** Delivery: the payload and the attempts *)

Section Payload.
Context `{!Marshaller}.

Lemma payload_app h b1 b2 : payload h (b1 ++ b2) = payload h b1 ++ payload h b2.
Proof. unfold payload. by rewrite map_app, concat_app. Qed.

Lemma payload_single h e : payload h [e] = lineOf h e.
Proof. unfold payload. simpl. by rewrite app_nil_r. Qed.

(** The conversion loop computes the payload and sends nothing. *)
Lemma encodeBatch_payload batch : forall buff w,
  exists w', encodeBatch batch buff w = Ok (buff ++ payload (heap w) batch) w' /\
             net w' = net w /\ now w' = now w /\ same_shared w w' /\
             flushes (stdout w') = flushes (stdout w).
Proof.
  induction batch as [|entry rest IH]; intros buff w.
  - exists w. unfold payload. simpl. rewrite app_nil_r. auto 6 with shipper.
  - cbn [encodeBatch]. unfold bind, gets, Println, modify, ret.
    unfold payload. cbn [map concat]. unfold lineOf at 1.
    destruct (json_Marshal (heap w) (toVictoriaLogsEntry entry)) as [data|] eqn:Hm;
      match goal with |- context [encodeBatch rest ?b ?w0] =>
        destruct (IH b w0) as (w' & Hrun & Hnet & Hnow & Hsh & Hfl) end;
      exists w'; rewrite Hrun; simpl heap; (split; [f_equal|]);
      try (rewrite Hfl; cbn [stdout set_stdout]; rewrite !flushes_app; simpl;
           rewrite !app_nil_r; repeat split; try apply Hsh; done).
    unfold payload. by rewrite <- !app_assoc.
Qed.

(** [sendBatch] on an empty batch prints and returns. *)
Lemma sendBatch_empty v w :
  sendBatch v [] w = Ok tt (set_stdout (stdout w ++ [DSendBatch []]) w).
Proof. reflexivity. Qed.

(** [sendBatch] on a batch that is not empty runs the retry loop on the
    payload of the batch. *)
Lemma sendBatch_cons v batch w :
  batch <> [] ->
  exists w1,
    sendBatch v batch w
    = retryLoop v (payload (heap w) batch) (Z.to_nat (MaxRetries (config v))) 0 w1 /\
    net w1 = net w /\ same_shared w w1 /\
    flushes (stdout w1) = flushes (stdout w) ++ [batch].
Proof.
  intros Hne. destruct batch as [|e batch]; [done|].
  unfold sendBatch. cbn [length Nat.eqb]. unfold bind, Println, modify.
  destruct (encodeBatch_payload (e :: batch) []
              (set_stdout (stdout w ++ [DSendBatch (e :: batch)]) w))
    as (w1 & -> & Hnet & _ & Hsh & Hfl).
  exists w1. split; [done|]. split; [done|]. split; [chain_shared|].
  rewrite Hfl. cbn [stdout set_stdout]. by rewrite flushes_app.
Qed.

(** [sendBatch] always returns, touches nothing that is shared, and is
    recorded once. On a batch that is not empty it makes at most
    [MaxRetries] attempts, all with the payload of the batch. *)
Lemma sendBatch_ok v batch w :
  exists w', sendBatch v batch w = Ok tt w' /\ same_shared w w' /\
             flushes (stdout w') = flushes (stdout w) ++ [batch].
Proof.
  destruct batch as [|e batch].
  - rewrite sendBatch_empty. eexists. split; [reflexivity|]. split; [auto with shipper|].
    cbn [stdout set_stdout]. by rewrite flushes_app.
  - destruct (sendBatch_cons v (e :: batch) w) as (w1 & -> & _ & Hsh & Hfl); [done|].
    destruct (retryLoop_total v (payload (heap w) (e :: batch))
                (Z.to_nat (MaxRetries (config v))) 0 w1)
      as (w' & tr & Hloop & _ & Hsh' & Hfl' & _).
    exists w'. split; [exact Hloop|]. split; [chain_shared|]. by rewrite Hfl', Hfl.
Qed.

Lemma sendBatch_total v batch w :
  batch <> [] ->
  exists w' tr, sendBatch v batch w = Ok tt w' /\
                net w' = net w ++ tr /\ same_shared w w' /\
                (length (attempts tr) <= Z.to_nat (MaxRetries (config v)))%nat /\
                attempts tr = replicate (length (attempts tr)) (payload (heap w) batch) /\
                (0 < MaxRetries (config v) ->
                 exists tr', tr = Attempt (payload (heap w) batch) :: tr').
Proof.
  intros Hne.
  destruct (sendBatch_cons v batch w Hne) as (w1 & -> & Hnet & Hsh & _).
  destruct (retryLoop_total v (payload (heap w) batch)
              (Z.to_nat (MaxRetries (config v))) 0 w1)
    as (w' & tr & Hloop & Hnet' & Hsh' & _ & Hlen & Hrep & Hfirst).
  exists w', tr. split; [exact Hloop|]. split; [by rewrite Hnet', Hnet|].
  split; [chain_shared|]. split; [exact Hlen|]. split; [exact Hrep|].
  intros Hpos. apply (Hfirst (Nat.pred (Z.to_nat (MaxRetries (config v))))). lia.
Qed.

End Payload.

(** ** The retry schedule of [sendBatch] *)

Section RetrySchedule.
Context `{!Marshaller}.

Lemma sendBatch_all_fail v batch w :
  batch <> [] ->
  (forall k, fails (remote w k) = true) ->
  exists w', sendBatch v batch w = Ok tt w' /\
             net w' = net w ++ failedRounds (payload (heap w) batch)
                                 (Z.to_nat (MaxRetries (config v))) 0 /\
             same_shared w w'.
Proof.
  intros Hne Hfail.
  destruct (sendBatch_cons v batch w Hne) as (w1 & -> & Hnet & Hsh & _).
  assert (Hr : remote w1 = remote w) by apply Hsh.
  destruct (retryLoop_failing v (payload (heap w) batch)
              (Z.to_nat (MaxRetries (config v))) 0 w1)
    as (w' & Hloop & Hnet' & Hsh').
  { intros k _. rewrite Hr. apply Hfail. }
  exists w'. split; [exact Hloop|]. split; [by rewrite Hnet', Hnet|chain_shared].
Qed.

Lemma sendBatch_succeeds_after v batch w m :
  batch <> [] ->
  (Z.of_nat m < MaxRetries (config v)) ->
  (forall k, (k < m)%nat -> fails (remote w (length (attempts (net w)) + k)%nat) = true) ->
  fails (remote w (length (attempts (net w)) + m)%nat) = false ->
  exists w', sendBatch v batch w = Ok tt w' /\
             net w' = net w ++ failedRounds (payload (heap w) batch) m 0
                            ++ [Attempt (payload (heap w) batch)] /\
             same_shared w w'.
Proof.
  intros Hne Hm Hfail Hok.
  destruct (sendBatch_cons v batch w Hne) as (w1 & -> & Hnet & Hsh & _).
  assert (Hr : remote w1 = remote w) by apply Hsh.
  destruct (retryLoop_succeeding v (payload (heap w) batch) m
              (Z.to_nat (MaxRetries (config v))) 0 w1)
    as (w' & Hloop & Hnet' & Hsh').
  { lia. }
  { intros k Hk. rewrite Hr, Hnet. by apply Hfail. }
  { rewrite Hr, Hnet. exact Hok. }
  exists w'. split; [exact Hloop|]. split; [by rewrite Hnet', Hnet|chain_shared].
Qed.

(** C1 (as the code has it). For a batch that is not empty and a retry count
    within the range of a delay in nanoseconds: when every attempt fails,
    [sendBatch] returns without panic after exactly [MaxRetries] attempts, not
    [MaxRetries + 1], with a delay of [(i+1)] seconds after the failed attempt
    [i]; when at least three attempts are allowed and the first two fail and
    the third succeeds, it makes three attempts with delays of 1s and 2s. *)
Theorem sendBatch_retry_schedule v batch w :
  batch <> [] ->
  0 <= MaxRetries (config v) <= 9223372036 ->
  let body := payload (heap w) batch in
  let n := Z.to_nat (MaxRetries (config v)) in
  ((forall k, fails (remote w k) = true) ->
   exists w', sendBatch v batch w = Ok tt w' /\
              attempts (net w') = attempts (net w) ++ replicate n body /\
              delays (net w') =
                delays (net w) ++ map (fun i => (Z.of_nat i + 1) * Second) (seq 0 n) /\
              same_shared w w') /\
  (3 <= MaxRetries (config v) ->
   fails (remote w (length (attempts (net w)))) = true ->
   fails (remote w (length (attempts (net w)) + 1)%nat) = true ->
   fails (remote w (length (attempts (net w)) + 2)%nat) = false ->
   exists w', sendBatch v batch w = Ok tt w' /\
              net w' = net w ++ [Attempt body; Sleep (1 * Second);
                                 Attempt body; Sleep (2 * Second);
                                 Attempt body] /\
              same_shared w w').
Proof.
  intros Hne Hrange body n. split.
  - intros Hfail.
    destruct (sendBatch_all_fail v batch w Hne Hfail) as (w' & Hrun & Hnet & Hsh).
    exists w'. split; [exact Hrun|]. rewrite Hnet, attempts_app, delays_app.
    rewrite attempts_failedRounds, delays_failedRounds.
    split; [done|]. split; [|exact Hsh]. f_equal.
    apply map_ext_in. intros i Hi%in_seq.
    rewrite Duration_mul_seconds; [f_equal|]; lia.
  - intros H3 H0 H1 H2.
    destruct (sendBatch_succeeds_after v batch w 2 Hne) as (w' & Hrun & Hnet & Hsh).
    + lia.
    + intros k Hk. destruct k as [|[|k]]; [|exact H1|lia].
      by rewrite Nat.add_0_r.
    + exact H2.
    + exists w'. split; [exact Hrun|]. split; [|exact Hsh].
      rewrite Hnet. reflexivity.
Qed.

End RetrySchedule.

Lemma sendBatch_retry_schedule_witness :
  exists w',
    sendBatch (H := plainMarshal) (rootLogger syncConfig) [sampleEntry "Create new User"]
      (started syncConfig alwaysDown 0) = Ok tt w' /\
    length (attempts (net w')) = 3%nat /\
    delays (net w') = [1 * Second; 2 * Second; 3 * Second].
Proof.
  destruct (sendBatch_retry_schedule (H := plainMarshal) (rootLogger syncConfig)
              [sampleEntry "Create new User"] (started syncConfig alwaysDown 0))
    as [Hall _].
  - discriminate.
  - simpl. lia.
  - destruct Hall as (w' & Hrun & Hatt & Hdel & _).
    + intros k. reflexivity.
    + exists w'. split; [exact Hrun|]. rewrite Hatt, Hdel. split; reflexivity.
Defined.

(** ** Delivery: what is printed *)

Lemma failureLines_S r k n :
  failureLines r k (S n) = DError (errorOf (r k)) :: failureLines r (S k) n.
Proof.
  unfold failureLines. cbn [seq map]. rewrite Nat.add_0_r. f_equal.
  rewrite <- seq_shift, map_map. apply map_ext. intros j. by rewrite Nat.add_succ_r.
Qed.

Lemma failureLines_length r k n : length (failureLines r k n) = n.
Proof. unfold failureLines. by rewrite length_map, length_seq. Qed.

Lemma failedRound_attempts_length data i e w :
  length (attempts (net (failedRound data i e w))) = S (length (attempts (net w))).
Proof. rewrite failedRound_net, attempts_app, length_app. simpl. lia. Qed.

Section Printed.
Context `{!Marshaller}.

(** A failed round prints the error of its attempt. *)
Lemma retryLoop_failed_round v data n i w :
  fails (remote w (length (attempts (net w)))) = true ->
  retryLoop v data (S n) i w
  = retryLoop v data n (i + 1)
      (failedRound data i (errorOf (remote w (length (attempts (net w))))) w).
Proof.
  intros Hf. cbn [retryLoop]. unfold bind, sendToVictoriaLogs.
  destruct (remote w (length (attempts (net w)))) as [msg|code]; simpl in *.
  - reflexivity.
  - rewrite Hf. reflexivity.
Qed.

(** Over [n] failed rounds the retry loop prints the [n] errors, and nothing
    else. *)
Lemma retryLoop_failing_lines v data n : forall i w,
  (forall k, (k < n)%nat -> fails (remote w (length (attempts (net w)) + k)%nat) = true) ->
  exists w', retryLoop v data n i w = Ok tt w' /\
             stdout w' = stdout w ++ failureLines (remote w) (length (attempts (net w))) n.
Proof.
  induction n as [|n IH]; intros i w Hfail.
  - exists w. split; [done|]. unfold failureLines. simpl. by rewrite app_nil_r.
  - rewrite retryLoop_failed_round
      by (rewrite <- (Nat.add_0_r (length _)); apply Hfail; lia).
    set (e := errorOf (remote w (length (attempts (net w))))).
    destruct (IH (i + 1) (failedRound data i e w)) as (w' & Hrun & Hout).
    { intros k Hk. rewrite failedRound_attempts. apply Hfail. lia. }
    exists w'. split; [exact Hrun|].
    rewrite Hout, failedRound_attempts_length, failureLines_S.
    unfold failedRound. cbn [stdout set_net set_now set_stdout remote].
    by rewrite <- app_assoc.
Qed.

(** The conversion loop prints the lines of its batch, and nothing else. *)
Lemma encodeBatch_lines batch : forall buff w r w',
  encodeBatch batch buff w = Ok r w' ->
  stdout w' = stdout w ++ conversionLines (heap w) batch.
Proof.
  induction batch as [|entry rest IH]; intros buff w r w'.
  - intros [= _ <-]. unfold conversionLines. simpl. by rewrite app_nil_r.
  - cbn [encodeBatch]. unfold bind, gets, Println, modify, ret.
    unfold conversionLines. cbn [flat_map].
    destruct (json_Marshal (heap w) (toVictoriaLogsEntry entry)) as [data|] eqn:Hm;
      intros Hrun; apply IH in Hrun; rewrite Hrun;
      cbn [stdout set_stdout heap]; unfold conversionLines;
      rewrite <- !app_assoc; reflexivity.
Qed.

(** When each of its [MaxRetries] attempts fails, [sendBatch] makes them all
    and prints its batch, the lines of the conversion and the error of each
    attempt. *)
Lemma sendBatch_all_fail_lines v batch w :
  batch <> [] ->
  (forall k, (k < Z.to_nat (MaxRetries (config v)))%nat ->
             fails (remote w (length (attempts (net w)) + k)%nat) = true) ->
  exists w', sendBatch v batch w = Ok tt w' /\
             net w' = net w ++ failedRounds (payload (heap w) batch)
                                 (Z.to_nat (MaxRetries (config v))) 0 /\
             stdout w' = stdout w ++ DSendBatch batch :: conversionLines (heap w) batch
                           ++ failureLines (remote w) (length (attempts (net w)))
                                (Z.to_nat (MaxRetries (config v))) /\
             same_shared w w'.
Proof.
  intros Hne Hfail. destruct batch as [|e batch]; [done|].
  unfold sendBatch. cbn [length Nat.eqb]. unfold bind, Println, modify.
  destruct (encodeBatch_payload (e :: batch) []
              (set_stdout (stdout w ++ [DSendBatch (e :: batch)]) w))
    as (w1 & Henc & Hnet1 & _ & Hsh1 & _).
  rewrite Henc. apply encodeBatch_lines in Henc. cbn [stdout set_stdout heap] in Henc.
  assert (Hr : remote w1 = remote w) by apply Hsh1.
  cbn [net set_stdout] in Hnet1. cbn [app heap set_stdout].
  assert (Hfail1 : forall k, (k < Z.to_nat (MaxRetries (config v)))%nat ->
            fails (remote w1 (length (attempts (net w1)) + k)%nat) = true).
  { intros k Hk. rewrite Hr, Hnet1. by apply Hfail. }
  destruct (retryLoop_failing v (payload (heap w) (e :: batch))
              (Z.to_nat (MaxRetries (config v))) 0 w1 Hfail1) as (w' & Hloop & Hnet & Hsh).
  destruct (retryLoop_failing_lines v (payload (heap w) (e :: batch))
              (Z.to_nat (MaxRetries (config v))) 0 w1 Hfail1) as (w2 & Hloop2 & Hout).
  rewrite Hloop in Hloop2. injection Hloop2 as <-.
  exists w'. split; [exact Hloop|]. split; [by rewrite Hnet, Hnet1|]. split.
  - rewrite Hout, Henc, Hr, Hnet1. by rewrite <- !app_assoc.
  - eapply same_shared_trans; [|exact Hsh].
    eapply same_shared_trans; [apply same_shared_stdout|exact Hsh1].
Qed.

End Printed.

(** ** Building an entry *)

Section Entries.
Context `{!Marshaller}.

(** With a made map for [fields], [createLogEntry] keeps that very map in the
    entry and writes the logger's context fields into it. *)
Lemma createLogEntry_made v level msg l w :
  exists h',
    createLogEntry v level msg (Some l) w =
      Ok (mkLogEntry level msg (now w) (serviceName v) "" "" (Some l)) (set_heap h' w) /\
    map_content h' (Some l) =
      map_content (heap w) (contextFields v) ∪ map_content (heap w) (Some l) /\
    (forall r, r <> Some l -> map_content h' r = map_content (heap w) r) /\
    (forall l', l' ∈ dom (heap w) -> l' ∈ dom h').
Proof.
  unfold createLogEntry, bind, time_Now_UnixNano, gets, ret. cbn [Fields].
  destruct (range_assign_made l (map_content (heap w) (contextFields v)) w)
    as (h' & -> & Hc & Hf & Hd).
  exists h'. auto.
Qed.

(** With the nil map for [fields], [createLogEntry] succeeds only for a logger
    without context fields. *)
Lemma createLogEntry_nil v level msg w :
  (map_content (heap w) (contextFields v) = ∅ /\
   createLogEntry v level msg None w =
     Ok (mkLogEntry level msg (now w) (serviceName v) "" "" None) w) \/
  (map_content (heap w) (contextFields v) <> ∅ /\
   createLogEntry v level msg None w = Panic "assignment to entry in nil map").
Proof.
  unfold createLogEntry, bind, time_Now_UnixNano, gets, ret. cbn [Fields].
  destruct (range_assign_nil (map_content (heap w) (contextFields v)) w)
    as [[Hemp ->]|[Hne ->]]; auto.
Qed.

(** [createLogEntry] writes to the heap and to nothing else. *)
Lemma createLogEntry_frame v level msg fields w e w1 :
  createLogEntry v level msg fields w = Ok e w1 ->
  exists h', w1 = set_heap h' w.
Proof.
  destruct fields as [l|].
  - destruct (createLogEntry_made v level msg l w) as (h' & -> & _).
    intros [= <- <-]. eauto.
  - destruct (createLogEntry_nil v level msg w) as [[_ ->]|[_ ->]]; [|done].
    intros [= <- <-]. exists (heap w). by rewrite set_heap_same.
Qed.

Lemma logEntry_unfold v c info msg fields w :
  logEntry v c info msg fields w =
  match createLogEntry v info msg fields w with
  | Ok e w1 => Ok (withUser c (withTrace c e)) w1
  | Panic m => Panic m
  end.
Proof. reflexivity. Qed.

Lemma logEntry_frame v c info msg fields w e w1 :
  logEntry v c info msg fields w = Ok e w1 ->
  exists h', w1 = set_heap h' w.
Proof.
  rewrite logEntry_unfold.
  destruct (createLogEntry v info msg fields w) as [e0 w0|m] eqn:Hc; [|done].
  intros [= <- <-]. eapply createLogEntry_frame, Hc.
Qed.

Lemma log_unfold v c info msg fields w :
  log v c info msg fields w =
  match logEntry v c info msg fields w with
  | Ok e w1 => offer v e w1
  | Panic m => Panic m
  end.
Proof. reflexivity. Qed.

End Entries.

(** ** The buffer *)

Lemma buffer_try_send_full e w :
  ch_closed (buffer w) = false ->
  (0 < ch_cap (buffer w))%nat ->
  (ch_cap (buffer w) <= length (ch_items (buffer w)))%nat ->
  buffer_try_send e w = Ok false w.
Proof.
  intros Hopen Hpos Hfull. unfold buffer_try_send. rewrite Hopen.
  destruct (ch_items (buffer w)) as [|x items] eqn:Hitems; simpl in *; [lia|].
  rewrite andb_false_r, orb_false_r.
  destruct (Nat.ltb_spec (S (length items)) (ch_cap (buffer w))); [lia|done].
Qed.

Lemma buffer_try_send_room e w :
  ch_closed (buffer w) = false ->
  (length (ch_items (buffer w)) < ch_cap (buffer w))%nat ->
  buffer_try_send e w =
    Ok true (set_buffer (mkChan (ch_cap (buffer w)) (ch_items (buffer w) ++ [e]) false) w).
Proof.
  intros Hopen Hroom. unfold buffer_try_send. rewrite Hopen.
  destruct (Nat.ltb_spec (length (ch_items (buffer w))) (ch_cap (buffer w))); [done|lia].
Qed.

Lemma buffer_try_send_closed e w :
  ch_closed (buffer w) = true ->
  buffer_try_send e w = Panic "send on closed channel".
Proof. intros Hc. unfold buffer_try_send. by rewrite Hc. Qed.

(** ** Saturation and synchronous delivery *)

Section Saturation.
Context `{!Marshaller}.

(** The only error of [BatchLog] is the buffer-full error. *)
Lemma batchLogAsync_error entries : forall w err w',
  batchLogAsync entries w = Ok (Some err) w' -> err = ErrBufferFull.
Proof.
  induction entries as [|e entries IH]; intros w err w'; cbn [batchLogAsync].
  - discriminate.
  - unfold bind. destruct (buffer_try_send e w) as [[|] w1|m]; [apply IH| |done].
    by intros [= <- _].
Qed.

Lemma BatchLog_error v entries w err w' :
  BatchLog v entries w = Ok (Some err) w' -> err = ErrBufferFull.
Proof.
  unfold BatchLog. destruct (Async (config v)); [apply batchLogAsync_error|].
  unfold bind. by destruct (sendBatch v entries w).
Qed.


(** C7. In asynchronous mode, on a buffer that is open and at capacity: a log
    call whose entry is built returns normally and leaves the buffer as it
    was, so the entry is dropped without a word to the caller (and with a made
    map for the fields the entry is always built); [BatchLog] with an entry to
    send returns the buffer-full error, the only error it ever returns. *)
Theorem full_buffer_drops v w :
  Async (config v) = true ->
  ch_closed (buffer w) = false ->
  (0 < ch_cap (buffer w))%nat ->
  (ch_cap (buffer w) <= length (ch_items (buffer w)))%nat ->
  (forall c info msg fields e w1,
     logEntry v c info msg fields w = Ok e w1 ->
     log v c info msg fields w = Ok tt w1 /\ buffer w1 = buffer w) /\
  (forall c info msg l,
     exists w1, log v c info msg (Some l) w = Ok tt w1 /\ buffer w1 = buffer w) /\
  (forall e entries, BatchLog v (e :: entries) w = Ok (Some ErrBufferFull) w) /\
  (forall entries err w', BatchLog v entries w = Ok (Some err) w' -> err = ErrBufferFull).
Proof.
  intros Hasync Hopen Hpos Hfull.
  assert (Hlog : forall c info msg fields e w1,
     logEntry v c info msg fields w = Ok e w1 ->
     log v c info msg fields w = Ok tt w1 /\ buffer w1 = buffer w).
  { intros c info msg fields e w1 He. rewrite log_unfold, He.
    destruct (logEntry_frame _ _ _ _ _ _ _ _ He) as [h' ->].
    unfold offer, bind. rewrite Hasync.
    rewrite buffer_try_send_full by done. done. }
  split; [exact Hlog|]. split; [|split].
  - intros c info msg l.
    destruct (createLogEntry_made v info msg l w) as (h' & Hc & _).
    pose proof (logEntry_unfold v c info msg (Some l) w) as Hu.
    rewrite Hc in Hu. apply Hlog in Hu. eauto.
  - intros e entries. unfold BatchLog. rewrite Hasync. cbn [batchLogAsync].
    unfold bind. by rewrite buffer_try_send_full.
  - intros entries err w'. apply BatchLog_error.
Qed.

(** C3, as amended. In synchronous mode nothing of the delivery reaches the
    caller, whatever the outcome of the attempts: [BatchLog] returns the nil
    error, and a log call whose entry is built returns normally, and neither
    touches anything but the clock, the network trace and the standard output.
    So it is when each of the [MaxRetries] attempts of the call fails: the
    batch, or the entry of the log call, is given up after these attempts,
    [BatchLog] still returns the nil error and the log call still returns
    normally; the failure is printed to the standard output and nowhere else,
    the error of each failed attempt on a line after the lines of the batch
    and of its conversion. *)
Theorem sync_failure_not_reported v w :
  Async (config v) = false ->
  (forall entries, exists w', BatchLog v entries w = Ok None w' /\ same_shared w w') /\
  (forall c info msg fields e w1,
     logEntry v c info msg fields w = Ok e w1 ->
     exists w', log v c info msg fields w = Ok tt w' /\ same_shared w1 w') /\
  (forall entries,
     entries <> [] ->
     (forall k, (k < Z.to_nat (MaxRetries (config v)))%nat ->
                fails (remote w (length (attempts (net w)) + k)%nat) = true) ->
     exists w', BatchLog v entries w = Ok None w' /\
                net w' = net w ++ failedRounds (payload (heap w) entries)
                                    (Z.to_nat (MaxRetries (config v))) 0 /\
                stdout w' = stdout w ++ DSendBatch entries
                              :: conversionLines (heap w) entries
                              ++ failureLines (remote w) (length (attempts (net w)))
                                   (Z.to_nat (MaxRetries (config v)))) /\
  (forall c info msg fields e w1,
     logEntry v c info msg fields w = Ok e w1 ->
     (forall k, (k < Z.to_nat (MaxRetries (config v)))%nat ->
                fails (remote w (length (attempts (net w)) + k)%nat) = true) ->
     exists w', log v c info msg fields w = Ok tt w' /\
                net w' = net w ++ failedRounds (payload (heap w1) [e])
                                    (Z.to_nat (MaxRetries (config v))) 0 /\
                stdout w' = stdout w ++ DSendBatch [e]
                              :: conversionLines (heap w1) [e]
                              ++ failureLines (remote w) (length (attempts (net w)))
                                   (Z.to_nat (MaxRetries (config v)))).
Proof.
  intros Hsync. split; [|split; [|split]].
  - intros entries. unfold BatchLog. rewrite Hsync. unfold bind.
    destruct (sendBatch_ok v entries w) as (w' & -> & Hsh & _). eauto.
  - intros c info msg fields e w1 He. rewrite log_unfold, He.
    unfold offer. rewrite Hsync.
    destruct (sendBatch_ok v [e] w1) as (w' & -> & Hsh & _). eauto.
  - intros entries Hne Hfail. unfold BatchLog. rewrite Hsync. unfold bind.
    destruct (sendBatch_all_fail_lines v entries w Hne Hfail)
      as (w' & -> & Hnet & Hout & _).
    eauto.
  - intros c info msg fields e w1 He Hfail. rewrite log_unfold, He.
    unfold offer. rewrite Hsync.
    destruct (logEntry_frame _ _ _ _ _ _ _ _ He) as [h' ->].
    destruct (sendBatch_all_fail_lines v [e] (set_heap h' w)) as (w' & -> & Hnet & Hout & _);
      [done|exact Hfail|].
    exists w'. split; [done|]. split; [exact Hnet|exact Hout].
Qed.

End Saturation.

Lemma full_buffer_drops_witness :
  BatchLog (H := plainMarshal) (rootLogger tinyConfig) [sampleEntry "second"]
    (saturated (H := plainMarshal))
  = Ok (Some ErrBufferFull) (saturated (H := plainMarshal)) /\
  exists w1, Info (H := plainMarshal) (rootLogger tinyConfig) Background "second"
               (Some 7%nat) (saturated (H := plainMarshal)) = Ok tt w1 /\
             buffer w1 = buffer (saturated (H := plainMarshal)).
Proof.
  destruct (full_buffer_drops (H := plainMarshal) (rootLogger tinyConfig)
              (saturated (H := plainMarshal))) as (_ & Hlog & Hbatch).
  - reflexivity.
  - reflexivity.
  - vm_compute. lia.
  - vm_compute. lia.
  - split; [apply Hbatch|apply Hlog].
Defined.

Lemma sync_failure_not_reported_witness :
  exists w', BatchLog (H := plainMarshal) (rootLogger syncConfig)
               [sampleEntry "Create new User"] (started syncConfig alwaysDown 0)
             = Ok None w' /\
             stdout w' = [DSendBatch [sampleEntry "Create new User"];
                          DSendLog (sampleEntry "Create new User");
                          DError (ErrTransport "connection refused");
                          DError (ErrTransport "connection refused");
                          DError (ErrTransport "connection refused")].
Proof.
  destruct (sync_failure_not_reported (H := plainMarshal) (rootLogger syncConfig)
              (started syncConfig alwaysDown 0)) as (_ & _ & Hbatch & _).
  - reflexivity.
  - destruct (Hbatch [sampleEntry "Create new User"]) as (w' & Hrun & _ & Hout).
    + discriminate.
    + intros k _. reflexivity.
    + exists w'. split; [exact Hrun|]. rewrite Hout. reflexivity.
Defined.

(** C3, as stated, fails: a synchronous logger in front of an endpoint that
    refuses every attempt. All three attempts of the batch fail, and
    [BatchLog] returns the nil error; the log call returns normally. *)
Lemma sync_failure_reported_counterexample :
  (forall k, fails (remote (started syncConfig alwaysDown 0) k) = true) /\
  length (attempts (net (after (BatchLog (H := plainMarshal) (rootLogger syncConfig)
                                  [sampleEntry "Create new User"])
                               (started syncConfig alwaysDown 0)))) = 3%nat /\
  ~ (exists err w', BatchLog (H := plainMarshal) (rootLogger syncConfig)
                      [sampleEntry "Create new User"]
                      (started syncConfig alwaysDown 0) = Ok (Some err) w') /\
  ~ panics (Error (H := plainMarshal) (rootLogger syncConfig) Background
              "Failed to create user" None)
           (started syncConfig alwaysDown 0).
Proof.
  split; [intros k; reflexivity|]. split; [vm_compute; reflexivity|]. split.
  - intros (err & w' & Hrun). vm_compute in Hrun. discriminate Hrun.
  - intros (m & Hrun). vm_compute in Hrun. discriminate Hrun.
Qed.

(** ** The caller's map *)

Section CallerMap.
Context `{!Marshaller}.

(** C10 (as the code has it). A log call with the nil map for the fields, on a
    logger that has context fields, panics in [createLogEntry] on the first
    write into the nil map. *)
Theorem nil_fields_panic v c info msg w :
  map_content (heap w) (contextFields v) <> ∅ ->
  log v c info msg None w = Panic "assignment to entry in nil map".
Proof.
  intros Hne. rewrite log_unfold, logEntry_unfold.
  destruct (createLogEntry_nil v info msg w) as [[Hemp _]|[_ ->]]; done.
Qed.

(** C4 (as the code has it). In asynchronous mode with room in the open
    buffer, the entry that a log call puts into the buffer holds the caller's
    own map: a later write of the caller into that map shows in the fields of
    the buffered entry, while the buffer itself is not touched. *)
Theorem buffered_entry_aliases_fields v c info msg l w :
  Async (config v) = true ->
  ch_closed (buffer w) = false ->
  (length (ch_items (buffer w)) < ch_cap (buffer w))%nat ->
  exists e w',
    log v c info msg (Some l) w = Ok tt w' /\
    ch_items (buffer w') = ch_items (buffer w) ++ [e] /\
    Fields e = Some l /\
    forall k x, exists w'',
      map_assign (Some l) k x w' = Ok tt w'' /\
      buffer w'' = buffer w' /\
      map_content (heap w'') (Fields e) !! k = Some x.
Proof.
  intros Hasync Hopen Hroom.
  destruct (createLogEntry_made v info msg l w) as (h' & Hc & _).
  rewrite log_unfold, logEntry_unfold, Hc.
  unfold offer, bind. rewrite Hasync.
  rewrite buffer_try_send_room by done. cbn [buffer set_heap ch_cap ch_items].
  eexists _, _. split; [reflexivity|]. split; [reflexivity|]. split.
  - unfold withUser, withTrace.
    destruct (any_is_nil (ctx_Value c "user_id")), (assert_string (ctx_Value c "user_id")),
      (any_is_nil (ctx_Value c "trace_id")), (assert_string (ctx_Value c "trace_id"));
      reflexivity.
  - intros k x. eexists. split; [reflexivity|]. split; [reflexivity|].
    replace (Fields _) with (Some l).
    + cbn [heap set_heap set_buffer]. rewrite map_content_insert_eq.
      apply lookup_insert_eq.
    + unfold withUser, withTrace.
      destruct (any_is_nil (ctx_Value c "user_id")), (assert_string (ctx_Value c "user_id")),
        (any_is_nil (ctx_Value c "trace_id")), (assert_string (ctx_Value c "trace_id"));
        reflexivity.
Qed.

End CallerMap.

Lemma nil_fields_panic_witness :
  Info (H := plainMarshal) userLogger Background "User operation" None userWorld
  = Panic "assignment to entry in nil map".
Proof.
  apply (nil_fields_panic (H := plainMarshal)).
  intros Hemp. apply (f_equal (fun m => m !! "module")) in Hemp.
  vm_compute in Hemp. discriminate Hemp.
Defined.

Lemma buffered_entry_aliases_fields_witness :
  exists e w',
    Info (H := plainMarshal) userLogger Background "Create new User" (Some 4%nat)
      callerWorld = Ok tt w' /\
    ch_items (buffer w') = [e] /\
    Fields e = Some 4%nat /\
    exists w'',
      map_assign (Some 4%nat) "email" (AString "john@example.com") w' = Ok tt w'' /\
      map_content (heap w'') (Fields e) !! "email" = Some (AString "john@example.com").
Proof.
  destruct (buffered_entry_aliases_fields (H := plainMarshal) userLogger Background
              INFO "Create new User" 4%nat callerWorld)
    as (e & w' & Hrun & Hbuf & Hf & Hlater).
  - reflexivity.
  - reflexivity.
  - vm_compute. lia.
  - exists e, w'. split; [exact Hrun|]. split; [exact Hbuf|]. split; [exact Hf|].
    destruct (Hlater "email" (AString "john@example.com")) as (w'' & Hw & _ & Hk).
    exists w''. split; [exact Hw|exact Hk].
Defined.

(** ** Correlation values *)

Lemma ctx_Value_absent (c : Context) key :
  (forall x, ~ In (key, x) c) -> ctx_Value c key = ANil.
Proof.
  induction c as [|[k x] c IH]; intros Habs; simpl; [done|].
  destruct (String.eqb_spec k key) as [->|Hne].
  - exfalso. apply (Habs x). by left.
  - apply IH. intros y Hy. apply (Habs y). by right.
Qed.

Lemma withTrace_TraceID c e :
  TraceID e = "" -> TraceID (withTrace c e) = textOf (ctx_Value c "trace_id").
Proof. unfold withTrace. by destruct (ctx_Value c "trace_id"). Qed.

Lemma withUser_UserID c e :
  UserID e = "" -> UserID (withUser c e) = textOf (ctx_Value c "user_id").
Proof. unfold withUser. by destruct (ctx_Value c "user_id"). Qed.

Lemma withUser_TraceID c e : TraceID (withUser c e) = TraceID e.
Proof. unfold withUser. by destruct (ctx_Value c "user_id"). Qed.

Lemma withTrace_UserID c e : UserID (withTrace c e) = UserID e.
Proof. unfold withTrace. by destruct (ctx_Value c "trace_id"). Qed.

Section Correlation.
Context `{!Marshaller}.

Lemma createLogEntry_no_ids v level msg fields w e w1 :
  createLogEntry v level msg fields w = Ok e w1 -> TraceID e = "" /\ UserID e = "".
Proof.
  destruct fields as [l|].
  - destruct (createLogEntry_made v level msg l w) as (h' & -> & _).
    by intros [= <- <-].
  - destruct (createLogEntry_nil v level msg w) as [[_ ->]|[_ ->]]; [|done].
    by intros [= <- <-].
Qed.

(** C9. The correlation lookups of a log call never add a failure: the entry
    is built whenever [createLogEntry] returns one. On the entry, [TraceID]
    (and [UserID]) is the text bound to the key "trace_id" (and "user_id") in
    the context; it is empty when the key is not bound or bound to a value
    that is not text. In asynchronous mode with room in the open buffer this
    entry is the one the call puts into the buffer. *)
Theorem log_correlation v c info msg fields w :
  (forall e0 w1, createLogEntry v info msg fields w = Ok e0 w1 ->
     exists e, logEntry v c info msg fields w = Ok e w1) /\
  (forall e w1, logEntry v c info msg fields w = Ok e w1 ->
     (forall s, ctx_Value c "trace_id" = AString s -> TraceID e = s) /\
     ((forall s, ctx_Value c "trace_id" <> AString s) -> TraceID e = "") /\
     (forall s, ctx_Value c "user_id" = AString s -> UserID e = s) /\
     ((forall s, ctx_Value c "user_id" <> AString s) -> UserID e = "") /\
     (c = WithValue Background "trace_id" (AString "trace_abc123") ->
      TraceID e = "trace_abc123" /\ UserID e = "") /\
     (Async (config v) = true -> ch_closed (buffer w) = false ->
      (length (ch_items (buffer w)) < ch_cap (buffer w))%nat ->
      exists w', log v c info msg fields w = Ok tt w' /\
                 ch_items (buffer w') = ch_items (buffer w) ++ [e])).
Proof.
  split.
  - intros e0 w1 Hc. rewrite logEntry_unfold, Hc. eauto.
  - intros e w1 He.
    pose proof He as Hframe. apply logEntry_frame in Hframe as [h' ->].
    rewrite logEntry_unfold in He.
    destruct (createLogEntry v info msg fields w) as [e0 w0|m] eqn:Hc; [|done].
    injection He as <- _.
    destruct (createLogEntry_no_ids _ _ _ _ _ _ _ Hc) as [Ht Hu].
    assert (HT : TraceID (withUser c (withTrace c e0)) = textOf (ctx_Value c "trace_id"))
      by (rewrite withUser_TraceID; by apply withTrace_TraceID).
    assert (HU : UserID (withUser c (withTrace c e0)) = textOf (ctx_Value c "user_id"))
      by (apply withUser_UserID; by rewrite withTrace_UserID).
    rewrite HT, HU. split; [|split; [|split; [|split; [|split]]]].
    + by intros s ->.
    + intros Hno. destruct (ctx_Value c "trace_id"); try done. by destruct (Hno s).
    + by intros s ->.
    + intros Hno. destruct (ctx_Value c "user_id"); try done. by destruct (Hno s).
    + by intros ->.
    + intros Hasync Hopen Hroom. rewrite log_unfold, logEntry_unfold, Hc.
      apply createLogEntry_frame in Hc as [h0 ->].
      unfold offer, bind. rewrite Hasync.
      rewrite buffer_try_send_room by done. eexists. split; reflexivity.
Qed.

End Correlation.

Lemma log_correlation_witness :
  exists e w1,
    logEntry userLogger (WithValue Background "trace_id" (AString "trace_abc123"))
      INFO "Create new User" (Some 4%nat) callerWorld = Ok e w1 /\
    TraceID e = "trace_abc123" /\ UserID e = "".
Proof.
  destruct (log_correlation (H := plainMarshal) userLogger
              (WithValue Background "trace_id" (AString "trace_abc123"))
              INFO "Create new User" (Some 4%nat) callerWorld) as [Hbuilt Hids].
  destruct (createLogEntry_made userLogger INFO "Create new User" 4%nat callerWorld)
    as (h' & Hc & _).
  destruct (Hbuilt _ _ Hc) as [e He].
  exists e, (set_heap h' callerWorld). split; [exact He|].
  destruct (Hids _ _ He) as (_ & _ & _ & _ & Hscenario & _).
  apply Hscenario. reflexivity.
Defined.

(** ** Derived loggers *)

Lemma fresh_not_bound (h : gmap nat (gmap string any)) : h !! fresh (dom h) = None.
Proof. apply not_elem_of_dom, is_fresh. Qed.

Lemma map_content_fresh (h : gmap nat (gmap string any)) r :
  map_content (<[fresh (dom h) := ∅]> h) r = map_content h r.
Proof.
  destruct r as [l|]; [|done]. unfold map_content.
  destruct (decide (l = fresh (dom h))) as [->|Hne].
  - by rewrite lookup_insert_eq, fresh_not_bound.
  - by rewrite lookup_insert_ne.
Qed.

Lemma map_assign_made l k x w :
  map_assign (Some l) k x w =
  Ok tt (set_heap (<[l := <[k := x]> (map_content (heap w) (Some l))]> (heap w)) w).
Proof. reflexivity. Qed.

Section Derived.
Context `{!Marshaller}.

(** What a produced entry depends on: the clock, the logger's own fields and
    the caller's map. *)
Lemma produced_frame v level msg fields w1 w2 :
  now w1 = now w2 ->
  map_content (heap w1) (contextFields v) = map_content (heap w2) (contextFields v) ->
  map_content (heap w1) fields = map_content (heap w2) fields ->
  eval (produced v level msg fields) w1 = eval (produced v level msg fields) w2.
Proof.
  intros Hnow Hown Hgiven. unfold eval, produced, bind, gets, ret.
  destruct fields as [l|].
  - destruct (createLogEntry_made v level msg l w1) as (h1 & -> & Hc1 & _).
    destruct (createLogEntry_made v level msg l w2) as (h2 & -> & Hc2 & _).
    cbn [Fields heap set_heap]. by rewrite Hc1, Hc2, Hnow, Hown, Hgiven.
  - destruct (createLogEntry_nil v level msg w1) as [[He1 ->]|[Hn1 ->]],
             (createLogEntry_nil v level msg w2) as [[He2 ->]|[Hn2 ->]];
      try done; try congruence.
    cbn [Fields]. by rewrite Hnow.
Qed.

(** The copy that every derivation starts with: a new map with the parent's
    bindings. *)
Lemma copy_into_fresh v (newLogger : Logger) w :
  contextFields newLogger = Some (fresh (dom (heap w))) ->
  exists h1,
    copyContextFields v newLogger (set_heap (<[fresh (dom (heap w)) := ∅]> (heap w)) w)
      = Ok tt (set_heap h1 w) /\
    map_content h1 (Some (fresh (dom (heap w)))) = map_content (heap w) (contextFields v) /\
    (forall r, r <> Some (fresh (dom (heap w))) -> map_content h1 r = map_content (heap w) r).
Proof.
  intros Hcf. unfold copyContextFields, bind, gets. rewrite Hcf.
  cbn [heap set_heap]. rewrite map_content_fresh.
  destruct (range_assign_made (fresh (dom (heap w)))
              (map_content (heap w) (contextFields v))
              (set_heap (<[fresh (dom (heap w)) := ∅]> (heap w)) w))
    as (h1 & -> & Hc & Hf & _).
  exists h1. cbn [heap set_heap] in *. rewrite set_heap_twice.
  split; [done|]. split.
  - rewrite Hc, map_content_insert_eq. by rewrite (right_id_L ∅ (∪)).
  - intros r Hr. rewrite Hf by done. apply map_content_fresh.
Qed.

Lemma derive_spec v d w :
  exists child h',
    derive v d w = Ok child (set_heap h' w) /\
    contextFields child = Some (fresh (dom (heap w))) /\
    map_content h' (contextFields child) =
      givenFields (heap w) d ∪ map_content (heap w) (contextFields v) /\
    (forall r, r <> contextFields child -> map_content h' r = map_content (heap w) r).
Proof.
  destruct d as [fields|service|c]; cbn [derive givenFields].
  - unfold WithFields, bind, make_map.
    set (newLogger := mkLogger (config v) (ctx v) (Some (fresh (dom (heap w))))
                        (serviceName v) ZeroGroup).
    destruct (copy_into_fresh v newLogger w) as (h1 & -> & Hc1 & Hf1); [done|].
    unfold gets, ret. cbn [heap set_heap contextFields newLogger].
    destruct (range_assign_made (fresh (dom (heap w))) (map_content h1 fields)
                (set_heap h1 w)) as (h2 & -> & Hc2 & Hf2 & _).
    cbn [heap set_heap] in *. rewrite set_heap_twice.
    exists newLogger, h2. split; [done|]. split; [done|]. split.
    + cbn [contextFields newLogger]. rewrite Hc2, Hc1.
      destruct (decide (fields = Some (fresh (dom (heap w))))) as [->|Hne].
      * rewrite Hc1. unfold map_content at 3. rewrite fresh_not_bound.
        cbn [default]. rewrite (left_id_L ∅ (∪)). apply (idemp_L (∪)).
      * by rewrite Hf1.
    + intros r Hr. cbn [contextFields newLogger] in Hr.
      rewrite Hf2 by done. by apply Hf1.
  - unfold WithService, bind, make_map.
    set (newLogger := mkLogger (config v) (ctx v) (Some (fresh (dom (heap w)))) service
                        ZeroGroup).
    destruct (copy_into_fresh v newLogger w) as (h1 & -> & Hc1 & Hf1); [done|].
    exists newLogger, h1. split; [done|]. split; [done|]. split.
    + cbn [contextFields newLogger]. by rewrite Hc1, (left_id_L ∅ (∪)).
    + intros r Hr. by apply Hf1.
  - unfold WithContext, bind, make_map.
    set (newLogger := mkLogger (config v) c (Some (fresh (dom (heap w))))
                        (serviceName v) ZeroGroup).
    destruct (copy_into_fresh v newLogger w) as (h1 & -> & Hc1 & Hf1); [done|].
    exists newLogger, h1. split; [done|]. split; [done|]. split.
    + cbn [contextFields newLogger]. by rewrite Hc1, (left_id_L ∅ (∪)).
    + intros r Hr. by apply Hf1.
Qed.

(** C6. Each derivation returns a logger with a map of its own, a new object
    that holds the parent's fields with the given fields laid over them, and
    leaves the parent's map and every other map as it was. A field later
    added to the child's map changes no entry the parent produces, and a field
    later added to the parent's map changes no entry the child produces. *)
Theorem derived_fields_independent v d w :
  valid_ref (heap w) (contextFields v) ->
  exists child w' l,
    derive v d w = Ok child w' /\
    contextFields child = Some l /\ (l ∉ dom (heap w)) /\
    contextFields child <> contextFields v /\
    map_content (heap w') (contextFields child) =
      givenFields (heap w) d ∪ map_content (heap w) (contextFields v) /\
    (forall r, r <> contextFields child ->
               map_content (heap w') r = map_content (heap w) r) /\
    buffer w' = buffer w /\ worker w' = worker w /\
    (forall k x level msg fields w2,
       fields <> contextFields child ->
       map_assign (contextFields child) k x w' = Ok tt w2 ->
       eval (produced v level msg fields) w2 = eval (produced v level msg fields) w') /\
    (forall k x level msg fields w2,
       fields <> contextFields v ->
       map_assign (contextFields v) k x w' = Ok tt w2 ->
       eval (produced child level msg fields) w2
       = eval (produced child level msg fields) w').
Proof.
  intros Hvalid.
  destruct (derive_spec v d w) as (child & h' & Hrun & Hcf & Hc & Hf).
  assert (Hne : contextFields child <> contextFields v).
  { rewrite Hcf. intros Heq. rewrite <- Heq in Hvalid.
    by apply (is_fresh (dom (heap w))). }
  exists child, (set_heap h' w), (fresh (dom (heap w))).
  split; [exact Hrun|]. split; [exact Hcf|]. split; [apply is_fresh|].
  split; [exact Hne|]. split; [exact Hc|]. split; [exact Hf|].
  split; [done|]. split; [done|]. split.
  - intros k x level msg fields w2 Hfields. rewrite Hcf in *.
    rewrite map_assign_made. intros [= <-].
    apply produced_frame; [done| |]; cbn [heap set_heap];
      by rewrite map_content_insert_ne.
  - intros k x level msg fields w2 Hfields.
    destruct (contextFields v) as [lp|] eqn:Hp; [|done].
    rewrite map_assign_made. intros [= <-].
    apply produced_frame; [done| |]; cbn [heap set_heap];
      by rewrite map_content_insert_ne.
Qed.

End Derived.

Lemma derived_fields_independent_witness :
  exists child w',
    WithFields (rootLogger demoConfig) (Some 1%nat)
      (after (map_literal {[ "module" := AString "user-service" ]})
             (started demoConfig alwaysUp 0)) = Ok child w' /\
    contextFields child <> contextFields (rootLogger demoConfig) /\
    map_content (heap w') (contextFields child) !! "module"
      = Some (AString "user-service") /\
    map_content (heap w') (contextFields (rootLogger demoConfig)) = ∅.
Proof.
  destruct (derived_fields_independent (rootLogger demoConfig) (ByFields (Some 1%nat))
              (after (map_literal {[ "module" := AString "user-service" ]})
                     (started demoConfig alwaysUp 0)))
    as (child & w' & l & Hrun & _ & _ & Hne & Hmerged & Hothers & _).
  - vm_compute. reflexivity.
  - exists child, w'. split; [exact Hrun|]. split; [exact Hne|].
    split; [rewrite Hmerged|rewrite Hothers by (intros Heq; by apply Hne)];
      vm_compute; reflexivity.
Defined.

(** ** An entry that does not marshal *)

Section Skipping.
Context `{!Marshaller}.

Lemma lineOf_unmarshalable h entry :
  json_Marshal h (toVictoriaLogsEntry entry) = None -> lineOf h entry = [].
Proof. unfold lineOf. by intros ->. Qed.

Lemma encodeBatch_eval batch w :
  eval (encodeBatch batch []) w = Some (payload (heap w) batch).
Proof.
  unfold eval. by destruct (encodeBatch_payload batch [] w) as (w' & -> & _).
Qed.

(** C8. When one entry of a batch does not marshal, the payload is the lines
    of the entries before it followed by the lines of the entries after it:
    the same payload as for the batch without that entry. The batch is not
    given up: with at least one attempt allowed, [sendBatch] sends this
    payload. *)
Theorem unmarshalable_entry_skipped v pre entry post w :
  json_Marshal (heap w) (toVictoriaLogsEntry entry) = None ->
  eval (encodeBatch (pre ++ entry :: post) []) w
    = Some (payload (heap w) pre ++ payload (heap w) post) /\
  eval (encodeBatch (pre ++ entry :: post) []) w = eval (encodeBatch (pre ++ post) []) w /\
  (0 < MaxRetries (config v) ->
   exists w' tr,
     sendBatch v (pre ++ entry :: post) w = Ok tt w' /\
     net w' = net w ++ Attempt (payload (heap w) pre ++ payload (heap w) post) :: tr).
Proof.
  intros Hfail.
  assert (Hp : payload (heap w) (pre ++ entry :: post)
               = payload (heap w) pre ++ payload (heap w) post).
  { rewrite payload_app. f_equal. change (entry :: post) with ([entry] ++ post).
    by rewrite payload_app, payload_single, lineOf_unmarshalable. }
  split; [by rewrite encodeBatch_eval, Hp|].
  split; [by rewrite !encodeBatch_eval, Hp, payload_app|].
  intros Hpos.
  destruct (sendBatch_total v (pre ++ entry :: post) w)
    as (w' & tr & Hrun & Hnet & _ & _ & _ & Hfirst).
  { by destruct pre. }
  destruct (Hfirst Hpos) as [tr' ->]. exists w', tr'.
  split; [exact Hrun|]. by rewrite Hnet, Hp.
Qed.

End Skipping.

Lemma unmarshalable_entry_skipped_witness :
  exists w',
    sendBatch (H := plainMarshal) (rootLogger syncConfig) mixedBatch funcWorld = Ok tt w' /\
    net w' = [Attempt (list_byte_of_string "first" ++ [newline]
                         ++ list_byte_of_string "third" ++ [newline])].
Proof.
  destruct (unmarshalable_entry_skipped (H := plainMarshal) (rootLogger syncConfig)
              [sampleEntry "first"]
              (mkLogEntry INFO "second" 0 "demo-api" "" "" (Some 1%nat))
              [sampleEntry "third"] funcWorld) as (_ & _ & Hsend).
  - reflexivity.
  - destruct Hsend as (w' & tr & Hrun & Hnet); [reflexivity|].
    exists w'. split; [exact Hrun|].
    change (sendBatch (H := plainMarshal) (rootLogger syncConfig) mixedBatch funcWorld
            = Ok tt w') in Hrun.
    vm_compute in Hrun. injection Hrun as <-. reflexivity.
Defined.

(** ** The worker and [Close] *)

Section Lifecycle.
Context `{!Marshaller}.

Lemma same_lifecycle_refl w : same_lifecycle w w.
Proof. by repeat split. Qed.

Lemma same_lifecycle_trans w1 w2 w3 :
  same_lifecycle w1 w2 -> same_lifecycle w2 w3 -> same_lifecycle w1 w3.
Proof.
  unfold same_lifecycle. intros (?&?&?&?&?&?) (?&?&?&?&?&?).
  repeat split; congruence.
Qed.

Lemma same_shared_lifecycle w w' : same_shared w w' -> same_lifecycle w w'.
Proof.
  unfold same_shared, same_lifecycle. intros (?&Hb&?&?&?&?).
  rewrite Hb. by repeat split.
Qed.

Lemma flushIfAny_ok v batch w :
  exists w', flushIfAny v batch w = Ok tt w' /\ same_shared w w' /\
             flushes (stdout w') = flushes (stdout w) ++ (if is_nil batch then [] else [batch]).
Proof.
  unfold flushIfAny. destruct batch as [|e batch]; simpl.
  - exists w. rewrite app_nil_r. auto using same_shared_refl.
  - apply sendBatch_ok.
Qed.

Lemma workerStep_ok v s w :
  exists w', workerStep v s w = Ok tt w' /\ same_lifecycle w w' /\
             (is_running (worker w) = false -> w' = w).
Proof.
  unfold workerStep. destruct (worker w) as [|batch|] eqn:Hw;
    try (exists w; by auto using same_lifecycle_refl).
  destruct s.
  - destruct (ch_items (buffer w)) as [|entry rest] eqn:Hitems.
    + destruct (ch_closed (buffer w)) eqn:Hclosed;
        [|exists w; by auto using same_lifecycle_refl].
      unfold bind, modify.
      destruct (sendBatch_ok v (batch ++ [zeroLogEntry]) w) as (w' & -> & Hsh & _).
      eexists. split; [reflexivity|]. split; [|done].
      eapply same_lifecycle_trans; [apply same_shared_lifecycle, Hsh|by repeat split].
    + unfold bind, modify.
      destruct (sendBatch_ok v (batch ++ [entry])
                  (set_buffer (mkChan (ch_cap (buffer w)) rest (ch_closed (buffer w))) w))
        as (w' & -> & Hsh & _).
      eexists. split; [reflexivity|]. split; [|done].
      eapply same_lifecycle_trans; [|eapply same_lifecycle_trans;
        [apply same_shared_lifecycle, Hsh|]]; by repeat split.
  - unfold bind, modify.
    destruct (flushIfAny_ok v batch w) as (w' & -> & Hsh & _).
    eexists. split; [reflexivity|]. split; [|done].
    eapply same_lifecycle_trans; [apply same_shared_lifecycle, Hsh|by repeat split].
  - destruct (cancelled w); [|exists w; by auto using same_lifecycle_refl].
    unfold bind, modify.
    destruct (flushIfAny_ok v batch w) as (w' & -> & Hsh & _).
    eexists. split; [reflexivity|]. split; [|done].
    eapply same_lifecycle_trans; [apply same_shared_lifecycle, Hsh|by repeat split].
Qed.

Lemma workerRun_ok v ss : forall w,
  exists w', workerRun v ss w = Ok tt w' /\ same_lifecycle w w'.
Proof.
  induction ss as [|s ss IH]; intros w; cbn [workerRun].
  - exists w. auto using same_lifecycle_refl.
  - unfold bind. destruct (workerStep_ok v s w) as (w1 & -> & Hl1 & _).
    destruct (IH w1) as (w' & -> & Hl). exists w'. split; [done|].
    eapply same_lifecycle_trans; eassumption.
Qed.

(** When the worker sees the cancellation it flushes a batch that is not
    empty, once, and exits. *)
Lemma worker_done_flushes_once v batch w :
  worker w = Running batch -> cancelled w = true ->
  exists w', workerStep v OnDone w = Ok tt w' /\ worker w' = Exited /\
             flushes (stdout w') = flushes (stdout w) ++ (if is_nil batch then [] else [batch]).
Proof.
  intros Hw Hc. unfold workerStep. rewrite Hw, Hc. unfold bind, modify.
  destruct (flushIfAny_ok v batch w) as (w' & -> & _ & Hfl).
  eexists. split; [reflexivity|]. split; [done|]. exact Hfl.
Qed.

(** The wait of [Close] returns. On the wait group of the worker it ends
    with no worker running; on the zero wait group of a derived logger it
    changes nothing. *)
Lemma wg_Wait_ok v ss w :
  cancelled w = true ->
  exists w', wg_Wait v ss w = Ok tt w' /\ same_lifecycle w w' /\
             (wg v = WorkerGroup -> is_running (worker w') = false) /\
             (wg v = ZeroGroup -> w' = w).
Proof.
  intros Hc. unfold wg_Wait. destruct (wg v).
  2:{ exists w. split; [done|]. split; [apply same_lifecycle_refl|]. by split. }
  unfold bind.
  destruct (workerRun_ok v ss w) as (w1 & -> & Hl1).
  assert (Hc1 : cancelled w1 = true) by (destruct Hl1 as (_&_&_&_&->&_); done).
  destruct (worker w1) as [|batch|] eqn:Hw1.
  - destruct (workerStep_ok v OnDone w1) as (w' & -> & Hl & Hsame).
    rewrite Hsame by (by rewrite Hw1). exists w1. by rewrite Hw1.
  - destruct (worker_done_flushes_once v batch w1 Hw1 Hc1) as (w' & Hrun & Hex & _).
    destruct (workerStep_ok v OnDone w1) as (w2 & Hrun2 & Hl & _).
    rewrite Hrun in Hrun2. injection Hrun2 as <-. rewrite Hrun.
    exists w'. split; [done|]. split; [|by rewrite Hex].
    eapply same_lifecycle_trans; eassumption.
  - destruct (workerStep_ok v OnDone w1) as (w' & -> & Hl & Hsame).
    rewrite Hsame by (by rewrite Hw1). exists w1. by rewrite Hw1.
Qed.

(** The first [Close] of a logger whose channels are open returns the nil
    error with both channels closed, and, when the logger has the wait group
    of the worker, with no worker left running. *)
Lemma Close_first v ss w :
  ch_closed (buffer w) = false -> ch_closed (batchChan w) = false ->
  exists w', Close v ss w = Ok None w' /\
             (wg v = WorkerGroup -> is_running (worker w') = false) /\
             ch_closed (buffer w') = true /\ ch_closed (batchChan w') = true.
Proof.
  intros Hb Hbc. unfold Close. unfold bind at 1, modify at 1.
  destruct (wg_Wait_ok v ss (set_cancelled true w)) as (w1 & Hrun & Hl & Hw & _); [done|].
  unfold bind at 1. rewrite Hrun.
  destruct Hl as (_ & Hcl & _ & Hbch & _). cbn in Hcl, Hbch.
  unfold bind, close_buffer, close_batchChan, ret.
  rewrite Hcl, Hb. cbn [batchChan set_buffer]. rewrite Hbch, Hbc.
  eexists. split; [reflexivity|]. split; [|by split]. exact Hw.
Qed.

Lemma Close_closes v ss w r w' :
  Close v ss w = Ok r w' -> ch_closed (buffer w') = true.
Proof.
  unfold Close. unfold bind at 1, modify at 1.
  destruct (wg_Wait_ok v ss (set_cancelled true w)) as (w1 & Hrun & _); [done|].
  unfold bind at 1. rewrite Hrun.
  unfold bind, close_buffer, close_batchChan, ret.
  destruct (ch_closed (buffer w1)); [done|]. cbn [batchChan set_buffer].
  destruct (ch_closed (batchChan w1)); [done|]. by intros [= _ <-].
Qed.

Lemma Close_on_closed v ss w :
  ch_closed (buffer w) = true -> Close v ss w = Panic "close of closed channel".
Proof.
  intros Hb. unfold Close. unfold bind at 1, modify at 1.
  destruct (wg_Wait_ok v ss (set_cancelled true w)) as (w1 & Hrun & Hl & _); [done|].
  unfold bind at 1. rewrite Hrun.
  destruct Hl as (_ & Hcl & _). cbn in Hcl.
  unfold bind, close_buffer. by rewrite Hcl, Hb.
Qed.

(** C2 (as the code has it). Whatever the state in which a [Close] has
    returned, the next [Close] does not return: it closes the buffer channel
    again, which is a run-time panic. *)
Theorem second_Close_panics v ss ss' w r w' :
  Close v ss w = Ok r w' ->
  Close v ss' w' = Panic "close of closed channel".
Proof.
  intros Hfirst. apply Close_on_closed. eapply Close_closes, Hfirst.
Qed.

End Lifecycle.

Lemma second_Close_panics_witness :
  exists w',
    Close (H := plainMarshal) (rootLogger demoConfig) [] (started demoConfig alwaysUp 0)
      = Ok None w' /\
    Close (H := plainMarshal) (rootLogger demoConfig) [] w'
      = Panic "close of closed channel".
Proof.
  destruct (Close_first (H := plainMarshal) (rootLogger demoConfig) []
              (started demoConfig alwaysUp 0)) as (w' & Hrun & _); [done|done|].
  exists w'. split; [exact Hrun|].
  exact (second_Close_panics (H := plainMarshal) _ _ _ _ _ _ Hrun).
Defined.

(** ** Producers and worker together *)

Lemma submitted_app s1 s2 : submitted (s1 ++ s2) = submitted s1 ++ submitted s2.
Proof.
  induction s1 as [|[e|s] s1 IH]; simpl; [done| |done]. by rewrite IH.
Qed.

Section Arrival.
Context `{!Marshaller}.

(** The arrival case of the worker: the entry goes to the end of the batch,
    the batch is sent at once and a new batch starts. *)
Lemma workerStep_arrival v w batch entry rest :
  worker w = Running batch ->
  ch_items (buffer w) = entry :: rest ->
  workerStep v OnEntry w =
    (do sendBatch v (batch ++ [entry]) then modify (set_worker (Running [])))
      (set_buffer (mkChan (ch_cap (buffer w)) rest (ch_closed (buffer w))) w).
Proof. intros Hw Hitems. unfold workerStep. by rewrite Hw, Hitems. Qed.

(** Whatever the endpoint does, an arrival at a worker with an empty batch
    is one call of [sendBatch], on the batch of that one entry, and the
    worker waits again with an empty batch. *)
Lemma workerStep_arrival_single v w entry rest :
  worker w = Running [] ->
  ch_items (buffer w) = entry :: rest ->
  exists w', workerStep v OnEntry w = Ok tt w' /\
             worker w' = Running [] /\ ch_items (buffer w') = rest /\
             flushes (stdout w') = flushes (stdout w) ++ [[entry]].
Proof.
  intros Hw Hitems. rewrite (workerStep_arrival v w [] entry rest Hw Hitems).
  cbn [app]. unfold bind, modify.
  destruct (sendBatch_ok v [entry]
              (set_buffer (mkChan (ch_cap (buffer w)) rest (ch_closed (buffer w))) w))
    as (w' & -> & Hsh & Hfl).
  eexists. split; [reflexivity|]. split; [done|].
  destruct Hsh as (_ & Hb & _). cbn [buffer set_worker stdout].
  by rewrite Hb, Hfl.
Qed.

(** The worker never waits with a batch that holds an entry. *)
Lemma worker_batch_invariant v s w w' :
  worker w = Running [] ->
  workerStep v s w = Ok tt w' ->
  worker w' = Running [] \/ worker w' = Exited.
Proof.
  intros Hw. unfold workerStep. rewrite Hw. destruct s.
  - destruct (ch_items (buffer w)) as [|entry rest].
    + destruct (ch_closed (buffer w)); [|intros [= <-]; by left].
      unfold bind, modify.
      destruct (sendBatch v ([] ++ [zeroLogEntry]) w); [|done].
      intros [= <-]. by left.
    + unfold bind, modify. destruct (sendBatch v ([] ++ [entry]) _); [|done].
      intros [= <-]. by left.
  - unfold bind, flushIfAny, modify, ret. simpl. intros [= <-]. by left.
  - destruct (cancelled w); [|intros [= <-]; by left].
    unfold bind, flushIfAny, modify, ret. simpl. intros [= <-]. by right.
Qed.

(** One step of the steady system. *)
Lemma runStep_steady v st w :
  steady v w ->
  (length (ch_items (buffer w)) + length (submitted [st]) <= ch_cap (buffer w))%nat ->
  exists w',
    runStep v st w = Ok tt w' /\ steady v w' /\
    heap w' = heap w /\ ch_cap (buffer w') = ch_cap (buffer w) /\
    (length (ch_items (buffer w')) <= length (ch_items (buffer w)) + length (submitted [st]))%nat /\
    attempts (net w') ++ map (fun e => payload (heap w) [e]) (ch_items (buffer w'))
      = attempts (net w) ++ map (fun e => payload (heap w) [e])
                              (ch_items (buffer w) ++ submitted [st]) /\
    flushes (stdout w') ++ map (fun e => [e]) (ch_items (buffer w'))
      = flushes (stdout w) ++ map (fun e => [e]) (ch_items (buffer w) ++ submitted [st]).
Proof.
  intros (Hasync & Hretries & Hworker & Hopen & Hcancel & Hup) Hroom.
  destruct st as [entry|s]; cbn [runStep submitted] in *.
  - unfold offer, bind. rewrite Hasync.
    rewrite buffer_try_send_room by (done || (simpl in Hroom; lia)).
    eexists. split; [reflexivity|]. split; [by repeat split|].
    cbn [heap buffer set_buffer ch_cap ch_items net stdout].
    rewrite length_app. simpl. repeat split; lia || done.
  - rewrite app_nil_r. destruct s.
    + destruct (ch_items (buffer w)) as [|entry rest] eqn:Hitems.
      * unfold workerStep. rewrite Hworker, Hitems, Hopen.
        exists w. rewrite Hitems. repeat split; done || lia.
      * rewrite (workerStep_arrival v w [] entry rest Hworker Hitems).
        cbn [app]. unfold bind, modify.
        set (w0 := set_buffer _ w).
        destruct (sendBatch_succeeds_after v [entry] w0 0)
          as (w1 & Hrun & Hnet & Hsh); [done|lia|intros k; lia| |].
        { cbn [remote w0 set_buffer]. apply Hup. }
        destruct (sendBatch_ok v [entry] w0) as (w2 & Hrun2 & _ & Hfl).
        rewrite Hrun in Hrun2. injection Hrun2 as <-. rewrite Hrun.
        destruct Hsh as (Hh & Hb & Hbc & Hc & Hwk & Hr).
        eexists. split; [reflexivity|].
        cbn [heap buffer set_worker set_buffer ch_cap ch_items net stdout worker
             cancelled remote].
        split.
        { unfold steady. cbn [worker set_worker buffer cancelled remote].
          rewrite Hb, Hc, Hr. by repeat split. }
        rewrite Hh, Hb, Hnet, Hfl.
        cbn [w0 heap buffer set_buffer ch_cap ch_items net stdout failedRounds app].
        rewrite attempts_app. simpl. rewrite <- !app_assoc. simpl.
        repeat split; lia || done.
    + unfold workerStep. rewrite Hworker. unfold bind, flushIfAny, modify, ret.
      simpl. eexists. split; [reflexivity|].
      cbn [heap buffer set_worker ch_cap ch_items net stdout worker cancelled remote].
      split; [by repeat split|]. repeat split; lia || done.
    + unfold workerStep. rewrite Hworker, Hcancel.
      exists w. repeat split; done || lia.
Qed.

(** The flushed batches and the entries still in the buffer, together, are
    the submitted entries in their order; each flushed batch holds one entry
    and was delivered in one attempt. *)
Lemma runSteps_steady v sts : forall w,
  steady v w ->
  (length (ch_items (buffer w)) + length (submitted sts) <= ch_cap (buffer w))%nat ->
  exists w',
    runSteps v sts w = Ok tt w' /\ steady v w' /\ heap w' = heap w /\
    attempts (net w') ++ map (fun e => payload (heap w) [e]) (ch_items (buffer w'))
      = attempts (net w) ++ map (fun e => payload (heap w) [e])
                              (ch_items (buffer w) ++ submitted sts) /\
    flushes (stdout w') ++ map (fun e => [e]) (ch_items (buffer w'))
      = flushes (stdout w) ++ map (fun e => [e]) (ch_items (buffer w) ++ submitted sts).
Proof.
  induction sts as [|st sts IH]; intros w Hsteady Hroom; cbn [runSteps].
  - exists w. simpl. rewrite app_nil_r. split; [done|]. split; [done|]. by repeat split.
  - unfold bind.
    assert (Hlen : length (submitted (st :: sts))
                   = (length (submitted [st]) + length (submitted sts))%nat).
    { change (st :: sts) with ([st] ++ sts). by rewrite submitted_app, length_app. }
    destruct (runStep_steady v st w Hsteady) as (w1 & -> & Hs1 & Hh1 & Hcap1 & Hl1 & Ha1 & Hf1);
      [lia|].
    destruct (IH w1 Hs1) as (w' & Hrun & Hs' & Hh' & Ha' & Hf'); [lia|].
    exists w'. split; [exact Hrun|]. split; [exact Hs'|]. split; [congruence|].
    rewrite Hh1 in Ha'. rewrite Ha', Hf'.
    change (st :: sts) with ([st] ++ sts). rewrite submitted_app.
    rewrite !(map_app _ (ch_items (buffer w1))), !app_assoc, Ha1, Hf1.
    rewrite !map_app, <- !app_assoc. done.
Qed.

(** C5. On arrival the worker puts the entry at the end of its batch, sends
    the batch at once and starts a new one; as it waits with an empty batch,
    that is one call of [sendBatch] for the one entry. In the steady system,
    started with an empty buffer that can take all the submitted entries,
    every run of producers and worker keeps the batches flushed so far, each
    holding one entry and delivered in one attempt, followed by the entries
    still in the buffer, equal to the submitted entries in their order. So
    once the buffer is drained, ten submitted entries have led to exactly ten
    attempts, each with the payload of one entry, in the order of
    submission. *)
Theorem worker_flushes_each_entry v w sts :
  steady v w ->
  ch_items (buffer w) = [] -> net w = [] -> stdout w = [] ->
  (length (submitted sts) <= ch_cap (buffer w))%nat ->
  (forall w0 batch entry rest,
     worker w0 = Running batch -> ch_items (buffer w0) = entry :: rest ->
     workerStep v OnEntry w0 =
       (do sendBatch v (batch ++ [entry]) then modify (set_worker (Running [])))
         (set_buffer (mkChan (ch_cap (buffer w0)) rest (ch_closed (buffer w0))) w0)) /\
  (forall w0 entry rest,
     worker w0 = Running [] -> ch_items (buffer w0) = entry :: rest ->
     exists w1, workerStep v OnEntry w0 = Ok tt w1 /\
                worker w1 = Running [] /\ ch_items (buffer w1) = rest /\
                flushes (stdout w1) = flushes (stdout w0) ++ [[entry]]) /\
  exists w',
    runSteps v sts w = Ok tt w' /\
    worker w' = Running [] /\
    attempts (net w') ++ map (fun e => payload (heap w) [e]) (ch_items (buffer w'))
      = map (fun e => payload (heap w) [e]) (submitted sts) /\
    flushes (stdout w') ++ map (fun e => [e]) (ch_items (buffer w'))
      = map (fun e => [e]) (submitted sts) /\
    (ch_items (buffer w') = [] -> length (submitted sts) = 10%nat ->
     length (attempts (net w')) = 10%nat /\
     attempts (net w') = map (fun e => payload (heap w) [e]) (submitted sts) /\
     flushes (stdout w') = map (fun e => [e]) (submitted sts)).
Proof.
  intros Hsteady Hempty Hnet Hout Hroom.
  split; [intros; by apply workerStep_arrival|].
  split; [intros; by apply workerStep_arrival_single|].
  destruct (runSteps_steady v sts w Hsteady) as (w' & Hrun & Hs' & _ & Ha & Hf).
  { rewrite Hempty. simpl. lia. }
  rewrite Hempty, Hnet in Ha. rewrite Hempty, Hout in Hf. simpl in Ha, Hf.
  exists w'. split; [exact Hrun|]. split; [apply Hs'|]. split; [exact Ha|].
  split; [exact Hf|].
  intros Hdrained Hten. rewrite Hdrained in Ha, Hf. simpl in Ha, Hf.
  rewrite app_nil_r in Ha, Hf.
  split; [|by split]. by rewrite Ha, length_map.
Qed.

End Arrival.

Lemma worker_flushes_each_entry_witness :
  exists w',
    runSteps (H := plainMarshal) (rootLogger demoConfig) burst
      (started demoConfig alwaysUp 0) = Ok tt w' /\
    length (attempts (net w')) = 10%nat /\
    flushes (stdout w') = map (fun e => [e]) tenEntries.
Proof.
  destruct (worker_flushes_each_entry (H := plainMarshal) (rootLogger demoConfig)
              (started demoConfig alwaysUp 0) burst)
    as (_ & _ & w' & Hrun & _ & _ & _ & Hten).
  - repeat split; reflexivity.
  - reflexivity.
  - reflexivity.
  - reflexivity.
  - vm_compute. lia.
  - exists w'. split; [exact Hrun|].
    assert (Hdrained : ch_items (buffer w') = []).
    { vm_compute in Hrun. injection Hrun as <-. reflexivity. }
    destruct (Hten Hdrained) as (Hlen & _ & Hfl); [reflexivity|].
    split; [exact Hlen|]. rewrite Hfl. reflexivity.
Defined.

(** ** Sample runs *)

(** The default three rounds against an endpoint that is down. *)
Example run_always_down :
  net (after (sendBatch (H := plainMarshal) (rootLogger syncConfig) [sampleEntry "m"])
             (started syncConfig alwaysDown 0))
  = [Attempt (list_byte_of_string "m" ++ [newline]); Sleep (1 * Second);
     Attempt (list_byte_of_string "m" ++ [newline]); Sleep (2 * Second);
     Attempt (list_byte_of_string "m" ++ [newline]); Sleep (3 * Second)].
Proof. vm_compute. reflexivity. Qed.

(** Two refusals, then success. *)
Example run_up_after_two :
  net (after (sendBatch (H := plainMarshal) (rootLogger syncConfig) [sampleEntry "m"])
             (started syncConfig (upAfter 2) 0))
  = [Attempt (list_byte_of_string "m" ++ [newline]); Sleep (1 * Second);
     Attempt (list_byte_of_string "m" ++ [newline]); Sleep (2 * Second);
     Attempt (list_byte_of_string "m" ++ [newline])].
Proof. vm_compute. reflexivity. Qed.

(** With [MaxRetries = 0] the batch is never sent, even to an endpoint that
    is up. *)
Example run_no_retries :
  net (after (sendBatch (H := plainMarshal)
                (mkLogger (mkConfig "" "demo-api" 50 (3 * Second) 0 (5 * Second) 500 false)
                          Background (Some 0%nat) "demo-api" WorkerGroup)
                [sampleEntry "m"])
             (started syncConfig alwaysUp 0))
  = [].
Proof. vm_compute. reflexivity. Qed.

(** The custom logger of the README, called with nil fields. *)
Example run_custom_logger_nil_fields :
  (let* userLogger := customLogger in
   Info (H := plainMarshal) userLogger Background "User operation" None)
    (started demoConfig alwaysUp 0)
  = Panic "assignment to entry in nil map".
Proof. vm_compute. reflexivity. Qed.

(** Construction, one entry, and [Close] twice. *)
Example run_close_twice :
  (let* r := NewVictoriaLogsLogger (Some demoConfig) in
   do Info (H := plainMarshal) (fst r) Background "Starting server" None then
   let* first := Close (H := plainMarshal) (fst r) [OnEntry] in
   Close (H := plainMarshal) (fst r) [])
    (boot alwaysUp 0)
  = Panic "close of closed channel".
Proof. vm_compute. reflexivity. Qed.

(** * Further properties of the logger and of its callers *)

(** ** Construction *)



(** ** [BatchLog] in asynchronous mode *)


Section BatchLogAsync.
Context `{!Marshaller}.


End BatchLogAsync.


(** ** After [Close] *)

Section AfterClose.
Context `{!Marshaller}.

(** X3. After a [Close] that has returned, every logger of the family in
    asynchronous mode panics on its next hand-over: a log call whose entry is
    built, and [BatchLog] with an entry to send, end in the run-time panic of
    a send on the closed buffer channel. *)
Theorem log_after_Close_panics v0 v ss w r w1 :
  Close v0 ss w = Ok r w1 ->
  Async (config v) = true ->
  (forall c info msg fields e w2,
     logEntry v c info msg fields w1 = Ok e w2 ->
     log v c info msg fields w1 = Panic "send on closed channel") /\
  (forall c info msg l, log v c info msg (Some l) w1 = Panic "send on closed channel") /\
  (forall e entries, BatchLog v (e :: entries) w1 = Panic "send on closed channel").
Proof.
  intros Hclose Hasync.
  pose proof (Close_closes _ _ _ _ _ Hclose) as Hclosed.
  assert (Hlog : forall c info msg fields e w2,
     logEntry v c info msg fields w1 = Ok e w2 ->
     log v c info msg fields w1 = Panic "send on closed channel").
  { intros c info msg fields e w2 He. rewrite log_unfold, He.
    destruct (logEntry_frame _ _ _ _ _ _ _ _ He) as [h' ->].
    unfold offer, bind. rewrite Hasync. by rewrite buffer_try_send_closed. }
  split; [exact Hlog|]. split.
  - intros c info msg l.
    destruct (createLogEntry_made v info msg l w1) as (h' & Hc & _).
    pose proof (logEntry_unfold v c info msg (Some l) w1) as Hu.
    rewrite Hc in Hu. by apply Hlog in Hu.
  - intros e entries. unfold BatchLog. rewrite Hasync. cbn [batchLogAsync].
    unfold bind. by rewrite buffer_try_send_closed.
Qed.

End AfterClose.

Lemma log_after_Close_panics_witness :
  exists w1,
    Close (H := plainMarshal) (rootLogger demoConfig) []
      (after (map_literal {[ "signal" := AString "SIGTERM" ]})
             (started demoConfig alwaysUp 0)) = Ok None w1 /\
    Info (H := plainMarshal) (rootLogger demoConfig) Background "Shutting down server"
      (Some 1%nat) w1 = Panic "send on closed channel".
Proof.
  destruct (Close_first (H := plainMarshal) (rootLogger demoConfig) []
              (after (map_literal {[ "signal" := AString "SIGTERM" ]})
                     (started demoConfig alwaysUp 0))) as (w1 & Hrun & _); [done|done|].
  exists w1. split; [exact Hrun|].
  destruct (log_after_Close_panics (H := plainMarshal) (rootLogger demoConfig)
              (rootLogger demoConfig) [] _ None w1 Hrun) as (_ & Hlog & _).
  - reflexivity.
  - apply Hlog.
Defined.

(** ** What [Close] delivers *)

Section Draining.
Context `{!Marshaller}.

(** The rounds of a worker that waits with an empty batch on an open buffer
    and does not see a cancellation: each arrival round takes the entry at
    the head of the buffer, if there is one, and sends it alone. *)
Lemma workerRun_arrivals v ss : forall w,
  worker w = Running [] ->
  ch_closed (buffer w) = false ->
  Forall (fun s => s <> OnDone) ss ->
  exists w',
    workerRun v ss w = Ok tt w' /\ worker w' = Running [] /\
    ch_items (buffer w') = drop (arrivals ss) (ch_items (buffer w)) /\
    flushes (stdout w')
      = flushes (stdout w) ++ map (fun e => [e]) (take (arrivals ss) (ch_items (buffer w))) /\
    same_lifecycle w w' /\
    (arrivals ss = 0%nat -> net w' = net w).
Proof.
  induction ss as [|s ss IH]; intros w Hw Hopen Hss; cbn [workerRun arrivals].
  - exists w. rewrite drop_0, take_0. simpl. rewrite app_nil_r.
    by repeat split.
  - apply Forall_cons in Hss as [Hs Hss]. unfold bind. destruct s; [| |done].
    + destruct (ch_items (buffer w)) as [|entry rest] eqn:Hitems.
      * unfold workerStep. rewrite Hw, Hitems, Hopen.
        destruct (IH w Hw Hopen Hss) as (w' & -> & Hw' & Hit & Hfl & Hl & _).
        exists w'. rewrite Hit, Hfl, Hitems, !drop_nil, !take_nil.
        split; [done|]. split; [done|]. split; [done|]. split; [done|].
        split; [done|]. discriminate.
      * destruct (workerStep_arrival_single v w entry rest Hw Hitems)
          as (w1 & Hstep & Hw1 & Hit1 & Hfl1).
        destruct (workerStep_ok v OnEntry w) as (w1' & Hstep' & Hl1 & _).
        rewrite Hstep in Hstep'. injection Hstep' as <-. rewrite Hstep.
        destruct (IH w1 Hw1) as (w' & -> & Hw' & Hit & Hfl & Hl & _).
        { destruct Hl1 as (_ & -> & _). exact Hopen. }
        { exact Hss. }
        exists w'. rewrite Hit, Hfl, Hit1, Hfl1. cbn [drop take map].
        rewrite <- app_assoc. split; [done|]. split; [done|]. split; [done|].
        split; [done|]. split; [|discriminate].
        eapply same_lifecycle_trans; eassumption.
    + unfold workerStep. rewrite Hw. unfold bind, flushIfAny, modify, ret. simpl.
      destruct (IH (set_worker (Running []) w)) as (w' & -> & Hw' & Hit & Hfl & Hl & Hnet);
        [done|done|done|].
      exists w'. split; [done|]. split; [done|]. split; [exact Hit|].
      split; [exact Hfl|]. split; [|exact Hnet].
      unfold same_lifecycle in *. cbn in Hl. exact Hl.
Qed.

(** X4. [Close] does not drain the buffer. On the logger that the
    constructor returned, when the worker waits with an empty batch and wins
    [k] arrival rounds before it sees the cancellation, [Close] returns the nil
    error with the worker gone; the first [k] buffered entries were handed to
    [sendBatch], each alone, and all the others are still in the closed
    buffer, undelivered; when the worker sees the cancellation at once,
    nothing is sent at all. On a derived logger, whose wait group counts
    nothing, [Close] does not wait for the worker: it returns the nil error at
    once, with the context cancelled, both channels closed, every buffered
    entry still in the buffer, nothing sent or printed, and the worker still
    running. *)
Theorem Close_leaves_buffered_entries v ss w :
  worker w = Running [] ->
  ch_closed (buffer w) = false -> ch_closed (batchChan w) = false ->
  Forall (fun s => s <> OnDone) ss ->
  (wg v = WorkerGroup ->
   exists w',
     Close v ss w = Ok None w' /\ worker w' = Exited /\
     ch_closed (buffer w') = true /\
     ch_items (buffer w') = drop (arrivals ss) (ch_items (buffer w)) /\
     flushes (stdout w')
       = flushes (stdout w) ++ map (fun e => [e]) (take (arrivals ss) (ch_items (buffer w))) /\
     (arrivals ss = 0%nat -> net w' = net w)) /\
  (wg v = ZeroGroup ->
   exists w',
     Close v ss w = Ok None w' /\ worker w' = Running [] /\ cancelled w' = true /\
     ch_closed (buffer w') = true /\ ch_closed (batchChan w') = true /\
     ch_items (buffer w') = ch_items (buffer w) /\
     net w' = net w /\ stdout w' = stdout w /\ now w' = now w).
Proof.
  intros Hw Hopen Hopen' Hss. split; intros Hwg.
  - unfold Close. unfold bind at 1, modify at 1. unfold bind at 1, wg_Wait at 1.
    rewrite Hwg. unfold bind at 1.
    destruct (workerRun_arrivals v ss (set_cancelled true w))
      as (w1 & -> & Hw1 & Hit & Hfl & Hl & Hnet); [done|done|done|].
    destruct (worker_done_flushes_once v [] w1 Hw1) as (w2 & Hdone & Hw2 & Hfl2).
    { by destruct Hl as (_&_&_&_&->&_). }
    destruct (workerStep_ok v OnDone w1) as (w2' & Hdone' & Hl2 & _).
    rewrite Hdone in Hdone'. injection Hdone' as <-. rewrite Hdone.
    assert (Hnet2 : net w2 = net w1).
    { revert Hdone. unfold workerStep. rewrite Hw1.
      destruct (cancelled w1); [|by intros [= <-]].
      unfold bind, flushIfAny, modify, ret. simpl. by intros [= <-]. }
    assert (Hit2 : ch_items (buffer w2) = ch_items (buffer w1)).
    { revert Hdone. unfold workerStep. rewrite Hw1.
      destruct (cancelled w1); [|by intros [= <-]].
      unfold bind, flushIfAny, modify, ret. simpl. by intros [= <-]. }
    pose proof (same_lifecycle_trans _ _ _ Hl Hl2) as (_ & Hcl & _ & Hbc & _).
    cbn in Hcl, Hbc.
    unfold bind, close_buffer, close_batchChan, ret.
    rewrite Hcl, Hopen. cbn [batchChan set_buffer]. rewrite Hbc, Hopen'.
    eexists. split; [reflexivity|].
    cbn [worker buffer set_batchChan set_buffer ch_closed ch_items stdout net].
    split; [exact Hw2|]. split; [done|]. split; [by rewrite Hit2, Hit|].
    split.
    + rewrite Hfl2, Hfl. simpl. by rewrite app_nil_r.
    + intros Hzero. rewrite Hnet2. by apply Hnet.
  - unfold Close, wg_Wait. rewrite Hwg.
    unfold bind, modify, ret, close_buffer, close_batchChan.
    cbn [buffer set_cancelled]. rewrite Hopen.
    cbn [batchChan set_buffer set_cancelled]. rewrite Hopen'.
    eexists. split; [reflexivity|].
    cbn [worker buffer batchChan cancelled net stdout now set_batchChan set_buffer
         set_cancelled ch_closed ch_items].
    by rewrite Hw.
Qed.

End Draining.

Lemma Close_leaves_buffered_entries_witness :
  (exists w',
     Close (H := plainMarshal) (rootLogger demoConfig) [OnEntry]
       (backlog (H := plainMarshal)) = Ok None w' /\
     ch_items (buffer w') = [sampleEntry "two"; sampleEntry "three"] /\
     flushes (stdout w') = [[sampleEntry "one"]]) /\
  (exists w',
     Close (H := plainMarshal) userLogger [OnEntry]
       (backlog (H := plainMarshal)) = Ok None w' /\
     worker w' = Running [] /\
     ch_items (buffer w') = [sampleEntry "one"; sampleEntry "two"; sampleEntry "three"]).
Proof.
  split.
  - destruct (Close_leaves_buffered_entries (H := plainMarshal) (rootLogger demoConfig)
                [OnEntry] (backlog (H := plainMarshal)))
      as [Hroot _].
    + reflexivity.
    + reflexivity.
    + reflexivity.
    + repeat constructor; discriminate.
    + destruct Hroot as (w' & Hrun & _ & _ & Hitems & Hfl & _); [reflexivity|].
      exists w'. split; [exact Hrun|]. split; [rewrite Hitems|rewrite Hfl]; reflexivity.
  - destruct (Close_leaves_buffered_entries (H := plainMarshal) userLogger
                [OnEntry] (backlog (H := plainMarshal)))
      as [_ Hderived].
    + reflexivity.
    + reflexivity.
    + reflexivity.
    + repeat constructor; discriminate.
    + destruct Hderived as (w' & Hrun & Hworker & _ & _ & _ & Hitems & _);
        [vm_compute; reflexivity|].
      exists w'. split; [exact Hrun|]. split; [exact Hworker|].
      rewrite Hitems. reflexivity.
Defined.

(** ** The interval trigger *)

Section Ticks.
Context `{!Marshaller}.

Lemma workerRun_stopped v ss : forall w,
  is_running (worker w) = false -> workerRun v ss w = Ok tt w.
Proof.
  induction ss as [|s ss IH]; intros w Hw; cbn [workerRun]; [done|].
  unfold bind. destruct (workerStep_ok v s w) as (w' & -> & _ & Hsame).
  rewrite (Hsame Hw). by apply IH.
Qed.

(** X5. A worker that waits with an empty batch sends nothing without an
    arrival: over any rounds of ticks and cancellation checks, the network
    trace, the standard output, the buffer and the heap stay as they are, and
    the worker still waits with an empty batch or has exited. *)
Theorem ticks_never_send v ss : forall w,
  worker w = Running [] ->
  arrivals ss = 0%nat ->
  exists w',
    workerRun v ss w = Ok tt w' /\
    net w' = net w /\ stdout w' = stdout w /\ buffer w' = buffer w /\
    heap w' = heap w /\ now w' = now w /\
    (worker w' = Running [] \/ worker w' = Exited).
Proof.
  induction ss as [|s ss IH]; intros w Hw Harr; cbn [workerRun].
  - exists w. repeat split; auto.
  - unfold bind. destruct s; cbn [arrivals] in Harr; [discriminate| |].
    + unfold workerStep. rewrite Hw. unfold bind, flushIfAny, modify, ret. simpl.
      destruct (IH (set_worker (Running []) w)) as (w' & -> & Hrest); [done|done|].
      exists w'. split; [done|]. exact Hrest.
    + unfold workerStep. rewrite Hw. destruct (cancelled w).
      * unfold bind, flushIfAny, modify, ret. simpl.
        rewrite workerRun_stopped by done.
        eexists. split; [reflexivity|]. repeat split; auto.
      * destruct (IH w Hw Harr) as (w' & -> & Hrest). exists w'. split; [done|].
        exact Hrest.
Qed.

End Ticks.

Lemma ticks_never_send_witness :
  exists w',
    workerRun (H := plainMarshal) (rootLogger demoConfig) [OnTick; OnTick; OnDone; OnTick]
      (backlog (H := plainMarshal)) = Ok tt w' /\
    net w' = [] /\ ch_items (buffer w') = ch_items (buffer (backlog (H := plainMarshal))).
Proof.
  destruct (ticks_never_send (H := plainMarshal) (rootLogger demoConfig)
              [OnTick; OnTick; OnDone; OnTick] (backlog (H := plainMarshal)))
    as (w' & Hrun & Hnet & _ & Hbuf & _).
  - reflexivity.
  - reflexivity.
  - exists w'. split; [exact Hrun|]. split; [by rewrite Hnet|by rewrite Hbuf].
Defined.

(** ** The time and the attempts of a delivery *)

Section DeliveryTime.
Context `{!Marshaller}.

Lemma failedRound_now data i e w :
  0 <= i + 1 <= 9223372036 ->
  now (failedRound data i e w) = now w + (i + 1) * Second.
Proof.
  intros Hi. unfold failedRound. cbn [now set_net set_now].
  rewrite Duration_mul_seconds by lia. unfold Second. lia.
Qed.

(** The clock over [n] failed rounds that start at [i]. *)
Lemma retryLoop_failing_now v data n : forall i w w',
  0 <= i -> i + Z.of_nat n <= 9223372036 ->
  (forall k, (k < n)%nat -> fails (remote w (length (attempts (net w)) + k)%nat) = true) ->
  retryLoop v data n i w = Ok tt w' ->
  2 * (now w' - now w) = Z.of_nat n * (2 * i + Z.of_nat n + 1) * Second.
Proof.
  induction n as [|n IH]; intros i w w' Hi Hrange Hfail.
  - intros [= <-]. lia.
  - destruct (retryLoop_round v data n i w) as [[Hok _]|(e & _ & ->)].
    { rewrite <- (Nat.add_0_r (length _)), Hfail in Hok by lia. done. }
    intros Hrun. apply IH in Hrun; [|lia|lia|].
    + rewrite failedRound_now in Hrun by lia. nia.
    + intros k Hk. rewrite failedRound_attempts. apply Hfail. lia.
Qed.

Lemma sendBatch_cons_now v batch w :
  batch <> [] ->
  exists w1,
    sendBatch v batch w
    = retryLoop v (payload (heap w) batch) (Z.to_nat (MaxRetries (config v))) 0 w1 /\
    net w1 = net w /\ now w1 = now w /\ remote w1 = remote w.
Proof.
  intros Hne. destruct batch as [|e batch]; [done|].
  unfold sendBatch. cbn [length Nat.eqb]. unfold bind, Println, modify.
  destruct (encodeBatch_payload (e :: batch) []
              (set_stdout (stdout w ++ [DSendBatch (e :: batch)]) w))
    as (w1 & -> & Hnet & Hnow & Hsh & _).
  exists w1. split; [done|]. split; [done|]. split; [done|]. apply Hsh.
Qed.

(** X6. When every attempt fails, [sendBatch] keeps its caller for the sum of
    the delays, [1 + 2 + ... + MaxRetries] seconds on the clock: a delay
    follows every failed attempt, the last one too, after which nothing is
    tried any more. *)
Theorem sendBatch_exhaustion_time v batch w :
  batch <> [] ->
  0 < MaxRetries (config v) <= 9223372036 ->
  (forall k, fails (remote w k) = true) ->
  exists w',
    sendBatch v batch w = Ok tt w' /\
    2 * (now w' - now w)
      = MaxRetries (config v) * (MaxRetries (config v) + 1) * Second /\
    last (net w') = Some (Sleep (MaxRetries (config v) * Second)).
Proof.
  intros Hne Hrange Hfail.
  destruct (sendBatch_all_fail v batch w Hne Hfail) as (w' & Hrun & Hnet & _).
  exists w'. split; [exact Hrun|]. split.
  - destruct (sendBatch_cons_now v batch w Hne) as (w1 & Heq & Hnet1 & Hnow1 & Hr1).
    rewrite Heq in Hrun.
    apply retryLoop_failing_now in Hrun; [|lia|lia|].
    + rewrite Hnow1 in Hrun. rewrite Hrun, Z2Nat.id by lia. ring.
    + intros k _. rewrite Hr1. apply Hfail.
  - rewrite Hnet.
    destruct (Z.to_nat (MaxRetries (config v))) as [|n] eqn:Hn; [lia|].
    assert (Hlast : forall data m i,
      last (failedRounds data (S m) i)
      = Some (Sleep (Duration_mul (i + Z.of_nat (S m)) Second))).
    { intros data m. induction m as [|m IH]; intros i.
      - simpl; repeat f_equal; lia.
      - change (failedRounds data (S (S m)) i)
          with (Attempt data :: Sleep (Duration_mul (i + 1) Second)
                  :: failedRounds data (S m) (i + 1)).
        rewrite !last_cons, IH.
        by replace (i + 1 + Z.of_nat (S m)) with (i + Z.of_nat (S (S m))) by lia. }
    rewrite last_app, Hlast. rewrite <- Hn, Z2Nat.id by lia.
    rewrite Duration_mul_seconds by lia. done.
Qed.

(** X7. When the first [m] attempts fail and the next one succeeds, with more
    than [m] attempts allowed, [sendBatch] makes exactly [m + 1] attempts, all
    with the payload of the batch, waits [1, 2, ..., m] seconds between them
    and returns right after the successful one. An attempt succeeds on every
    status code below 400. *)
Theorem sendBatch_stops_at_first_success v batch w m :
  batch <> [] ->
  Z.of_nat m < MaxRetries (config v) ->
  Z.of_nat m <= 9223372036 ->
  (forall k, (k < m)%nat -> fails (remote w (length (attempts (net w)) + k)%nat) = true) ->
  (exists code, remote w (length (attempts (net w)) + m)%nat = HttpStatus code /\ code < 400) ->
  exists w',
    sendBatch v batch w = Ok tt w' /\
    attempts (net w') = attempts (net w) ++ replicate (S m) (payload (heap w) batch) /\
    delays (net w') = delays (net w) ++ map (fun i => (Z.of_nat i + 1) * Second) (seq 0 m) /\
    last (net w') = Some (Attempt (payload (heap w) batch)) /\
    same_shared w w'.
Proof.
  intros Hne Hm Hrange Hfail (code & Hcode & Hlt).
  destruct (sendBatch_succeeds_after v batch w m Hne Hm Hfail) as (w' & Hrun & Hnet & Hsh).
  { rewrite Hcode. simpl. lia. }
  exists w'. split; [exact Hrun|]. rewrite Hnet.
  rewrite !attempts_app, !delays_app, attempts_failedRounds, delays_failedRounds.
  simpl. rewrite app_nil_r. split; [|split; [|split]].
  - f_equal. symmetry. apply replicate_cons_app.
  - f_equal. apply map_ext_in. intros i Hi%in_seq.
    rewrite Duration_mul_seconds; [f_equal|]; lia.
  - by rewrite app_assoc, last_snoc.
  - exact Hsh.
Qed.

End DeliveryTime.

Lemma sendBatch_exhaustion_time_witness :
  exists w',
    sendBatch (H := plainMarshal) (rootLogger syncConfig) [sampleEntry "m"]
      (started syncConfig alwaysDown 0) = Ok tt w' /\
    now w' = 6 * Second.
Proof.
  destruct (sendBatch_exhaustion_time (H := plainMarshal) (rootLogger syncConfig)
              [sampleEntry "m"] (started syncConfig alwaysDown 0))
    as (w' & Hrun & Hnow & _).
  - discriminate.
  - simpl. lia.
  - intros k. reflexivity.
  - exists w'. split; [exact Hrun|].
    change (now (started syncConfig alwaysDown 0)) with 0 in Hnow.
    change (MaxRetries (config (rootLogger syncConfig))) with 3 in Hnow.
    unfold Second in *. lia.
Defined.

Lemma sendBatch_stops_at_first_success_witness :
  exists w',
    sendBatch (H := plainMarshal) (rootLogger syncConfig) [sampleEntry "m"]
      (started syncConfig (upAfter 1) 0) = Ok tt w' /\
    length (attempts (net w')) = 2%nat /\ delays (net w') = [1 * Second].
Proof.
  destruct (sendBatch_stops_at_first_success (H := plainMarshal) (rootLogger syncConfig)
              [sampleEntry "m"] (started syncConfig (upAfter 1) 0) 1)
    as (w' & Hrun & Hatt & Hdel & _).
  - discriminate.
  - simpl. lia.
  - lia.
  - intros k Hk. assert (k = 0%nat) as -> by lia. reflexivity.
  - exists 200. split; [reflexivity|lia].
  - exists w'. split; [exact Hrun|]. rewrite Hatt, Hdel. split; reflexivity.
Defined.

(** ** Synchronous delivery *)

Section Inline.
Context `{!Marshaller}.

(** X8. In synchronous mode with at least one attempt allowed and the
    logger's context not cancelled, when the next attempt is answered with a
    status code below 400, that attempt is the only one of the call:
    [BatchLog] sends all its entries in one request, their lines in the order
    of the entries, before it returns, and a log call sends the line of its
    entry; the buffer is not used. *)
Theorem sync_delivers_inline v w :
  Async (config v) = false ->
  0 < MaxRetries (config v) ->
  cancelled w = false ->
  (exists code, remote w (length (attempts (net w))) = HttpStatus code /\ code < 400) ->
  (forall entries,
     entries <> [] ->
     exists w', BatchLog v entries w = Ok None w' /\
                net w' = net w ++ [Attempt (payload (heap w) entries)] /\
                buffer w' = buffer w) /\
  (forall c info msg l,
     exists w', log v c info msg (Some l) w = Ok tt w' /\
                net w' = net w ++
                  [Attempt (payload (heap w')
                     [withUser c (withTrace c
                        (mkLogEntry info msg (now w) (serviceName v) "" "" (Some l)))])] /\
                buffer w' = buffer w).
Proof.
  intros Hsync Hpos _ (code & Hcode & Hlt). split.
  - intros entries Hne. unfold BatchLog. rewrite Hsync. unfold bind.
    destruct (sendBatch_succeeds_after v entries w 0 Hne) as (w' & -> & Hnet & Hsh).
    + lia.
    + intros k Hk. lia.
    + rewrite Nat.add_0_r, Hcode. simpl. lia.
    + exists w'. split; [done|]. split; [exact Hnet|]. apply Hsh.
  - intros c info msg l.
    destruct (createLogEntry_made v info msg l w) as (h' & Hc & _).
    rewrite log_unfold, logEntry_unfold, Hc. unfold offer. rewrite Hsync.
    destruct (sendBatch_succeeds_after v
                [withUser c (withTrace c
                   (mkLogEntry info msg (now w) (serviceName v) "" "" (Some l)))]
                (set_heap h' w) 0) as (w' & -> & Hnet & Hsh).
    + done.
    + lia.
    + intros k Hk. lia.
    + cbn [remote net set_heap]. rewrite Nat.add_0_r, Hcode. simpl. lia.
    + exists w'. split; [done|]. destruct Hsh as (Hh & Hb & _).
      rewrite Hnet, Hh, Hb. done.
Qed.

(** X9. A batch none of whose entries marshals is not given up either: with
    at least one attempt allowed, [sendBatch] posts an empty body. *)
Theorem sendBatch_posts_empty_payload v batch w :
  batch <> [] ->
  Forall (fun e => json_Marshal (heap w) (toVictoriaLogsEntry e) = None) batch ->
  0 < MaxRetries (config v) ->
  payload (heap w) batch = [] /\
  exists w' tr, sendBatch v batch w = Ok tt w' /\ net w' = net w ++ Attempt [] :: tr.
Proof.
  intros Hne Hall Hpos.
  assert (Hp : payload (heap w) batch = []).
  { clear Hne. induction Hall as [|e batch He _ IH]; [done|].
    change (e :: batch) with ([e] ++ batch).
    by rewrite payload_app, payload_single, lineOf_unmarshalable, IH. }
  split; [exact Hp|].
  destruct (sendBatch_total v batch w Hne) as (w' & tr & Hrun & Hnet & _ & _ & _ & Hfirst).
  destruct (Hfirst Hpos) as [tr' ->]. exists w', tr'. by rewrite Hnet, Hp.
Qed.

End Inline.

Lemma sync_delivers_inline_witness :
  exists w',
    BatchLog (H := plainMarshal) (rootLogger syncConfig)
      [sampleEntry "one"; sampleEntry "two"] (started syncConfig alwaysUp 0) = Ok None w' /\
    net w' = [Attempt (list_byte_of_string "one" ++ [newline]
                         ++ list_byte_of_string "two" ++ [newline])].
Proof.
  destruct (sync_delivers_inline (H := plainMarshal) (rootLogger syncConfig)
              (started syncConfig alwaysUp 0)) as [Hbatch _].
  - reflexivity.
  - simpl. lia.
  - reflexivity.
  - exists 200. split; [reflexivity|lia].
  - destruct (Hbatch [sampleEntry "one"; sampleEntry "two"]) as (w' & Hrun & Hnet & _);
      [discriminate|].
    exists w'. split; [exact Hrun|]. rewrite Hnet. reflexivity.
Defined.

Lemma sendBatch_posts_empty_payload_witness :
  exists w' tr,
    sendBatch (H := plainMarshal) (rootLogger syncConfig)
      [mkLogEntry INFO "second" 0 "demo-api" "" "" (Some 1%nat)] funcWorld = Ok tt w' /\
    net w' = Attempt [] :: tr.
Proof.
  destruct (sendBatch_posts_empty_payload (H := plainMarshal) (rootLogger syncConfig)
              [mkLogEntry INFO "second" 0 "demo-api" "" "" (Some 1%nat)] funcWorld)
    as (_ & w' & tr & Hrun & Hnet).
  - discriminate.
  - repeat constructor.
  - simpl. lia.
  - exists w', tr. split; [exact Hrun|exact Hnet].
Defined.

(** ** The fields of an entry *)

Lemma withTrace_rest c e :
  Level (withTrace c e) = Level e /\ Message (withTrace c e) = Message e /\
  Timestamp (withTrace c e) = Timestamp e /\ Service (withTrace c e) = Service e /\
  Fields (withTrace c e) = Fields e.
Proof. unfold withTrace. by destruct (ctx_Value c "trace_id"). Qed.

Lemma withUser_rest c e :
  Level (withUser c e) = Level e /\ Message (withUser c e) = Message e /\
  Timestamp (withUser c e) = Timestamp e /\ Service (withUser c e) = Service e /\
  Fields (withUser c e) = Fields e.
Proof. unfold withUser. by destruct (ctx_Value c "user_id"). Qed.

Section EntryFields.
Context `{!Marshaller}.

(** X10. [createLogEntry] merges into the caller's map: after it, the map
    that the caller passed holds every context field of the logger, and on a
    key that both have the logger's value has replaced the caller's. The
    caller's other bindings are kept, and this map is the entry's field
    map. *)
Theorem context_fields_override v level msg l w :
  exists e w',
    createLogEntry v level msg (Some l) w = Ok e w' /\
    Fields e = Some l /\
    (forall k x, map_content (heap w) (contextFields v) !! k = Some x ->
                 map_content (heap w') (Some l) !! k = Some x) /\
    (forall k, map_content (heap w) (contextFields v) !! k = None ->
               map_content (heap w') (Some l) !! k = map_content (heap w) (Some l) !! k).
Proof.
  destruct (createLogEntry_made v level msg l w) as (h' & Hc & Hm & _).
  eexists _, _. split; [exact Hc|]. split; [done|].
  cbn [heap set_heap]. rewrite Hm. split.
  - intros k x Hk. by apply lookup_union_Some_l.
  - intros k Hk. by apply lookup_union_r.
Qed.

(** The logger that a derivation returns. *)
Lemma derive_logger v d w child w' :
  derive v d w = Ok child w' ->
  config child = config v /\
  serviceName child = (match d with ByService s => s | _ => serviceName v end) /\
  ctx child = (match d with ByContext c => c | _ => ctx v end) /\
  wg child = ZeroGroup.
Proof.
  destruct d as [fields|service|c]; cbn [derive].
  - unfold WithFields, bind, make_map.
    set (newLogger := mkLogger (config v) (ctx v) (Some (fresh (dom (heap w))))
                        (serviceName v) ZeroGroup).
    destruct (copy_into_fresh v newLogger w) as (h1 & -> & _); [done|].
    unfold gets, ret. cbn [heap set_heap contextFields newLogger].
    destruct (range_assign_made (fresh (dom (heap w))) (map_content h1 fields)
                (set_heap h1 w)) as (h2 & -> & _).
    by intros [= <- _].
  - unfold WithService, bind, make_map.
    set (newLogger := mkLogger (config v) (ctx v) (Some (fresh (dom (heap w)))) service
                        ZeroGroup).
    destruct (copy_into_fresh v newLogger w) as (h1 & -> & _); [done|].
    by intros [= <- _].
  - unfold WithContext, bind, make_map.
    set (newLogger := mkLogger (config v) c (Some (fresh (dom (heap w))))
                        (serviceName v) ZeroGroup).
    destruct (copy_into_fresh v newLogger w) as (h1 & -> & _); [done|].
    by intros [= <- _].
Qed.

(** X11. The entries of a derived logger. A logger derived by [WithFields],
    [WithService] or [WithContext] builds, for a call with the caller's map
    [l], an entry with the level and message of the call, the time of the
    call, the service name of the parent or the one given to [WithService],
    and the correlation values of the context of the call; the context given
    to [WithContext] plays no part. Its fields are the parent's context
    fields, overlaid with the fields given to [WithFields], overlaid on the
    caller's fields. *)
Theorem derived_logger_entries v d l w :
  l ∈ dom (heap w) ->
  exists child w1,
    derive v d w = Ok child w1 /\
    forall c info msg,
      exists e w2,
        logEntry child c info msg (Some l) w1 = Ok e w2 /\
        Level e = info /\ Message e = msg /\ Timestamp e = now w /\
        Service e = (match d with ByService s => s | _ => serviceName v end) /\
        TraceID e = textOf (ctx_Value c "trace_id") /\
        UserID e = textOf (ctx_Value c "user_id") /\
        Fields e = Some l /\
        map_content (heap w2) (Some l)
          = (givenFields (heap w) d ∪ map_content (heap w) (contextFields v))
              ∪ map_content (heap w) (Some l).
Proof.
  intros Hl.
  destruct (derive_spec v d w) as (child & h' & Hrun & Hcf & Hc & Hf).
  destruct (derive_logger _ _ _ _ _ Hrun) as (_ & Hsvc & _).
  exists child, (set_heap h' w). split; [exact Hrun|].
  intros c info msg.
  destruct (createLogEntry_made child info msg l (set_heap h' w)) as (h2 & Hce & Hm & _).
  rewrite logEntry_unfold, Hce. eexists _, _. split; [reflexivity|].
  destruct (withUser_rest c (withTrace c
              (mkLogEntry info msg (now (set_heap h' w)) (serviceName child) "" "" (Some l))))
    as (-> & -> & -> & -> & ->).
  destruct (withTrace_rest c
              (mkLogEntry info msg (now (set_heap h' w)) (serviceName child) "" "" (Some l)))
    as (-> & -> & -> & -> & ->).
  rewrite withUser_TraceID, withTrace_TraceID by done.
  rewrite withUser_UserID by (by rewrite withTrace_UserID).
  cbn [Level Message Timestamp Service Fields now set_heap heap].
  repeat (split; [done|]).
  rewrite Hm. cbn [heap set_heap]. rewrite Hc. f_equal. apply Hf.
  rewrite Hcf. intros [= ->]. by apply (is_fresh (dom (heap w))).
Qed.

End EntryFields.

Lemma derived_logger_entries_witness :
  exists child w1 e w2,
    derive (rootLogger demoConfig) (ByService "user-api") callerWorld = Ok child w1 /\
    logEntry child (WithValue Background "trace_id" (AString "trace_abc123"))
      WARN "This is a warning message" (Some 4%nat) w1 = Ok e w2 /\
    Service e = "user-api" /\ TraceID e = "trace_abc123" /\
    map_content (heap w2) (Some 4%nat) !! "username" = Some (AString "johndoe").
Proof.
  destruct (derived_logger_entries (rootLogger demoConfig) (ByService "user-api")
              4%nat callerWorld) as (child & w1 & Hrun & Hlog).
  - vm_compute. reflexivity.
  - destruct (Hlog (WithValue Background "trace_id" (AString "trace_abc123"))
                WARN "This is a warning message")
      as (e & w2 & He & _ & _ & _ & Hsvc & Htid & _ & _ & Hm).
    exists child, w1, e, w2. split; [exact Hrun|]. split; [exact He|].
    split; [exact Hsvc|]. split; [exact Htid|]. rewrite Hm. vm_compute. reflexivity.
Defined.

(** ** [Flush] *)

Lemma arrivals_app s1 s2 : arrivals (s1 ++ s2) = (arrivals s1 + arrivals s2)%nat.
Proof.
  induction s1 as [|[| |] s1 IH]; simpl; [done| |done|done]. by rewrite IH.
Qed.

Section FlushProps.
Context `{!Marshaller}.

Lemma flushLoop_unfold v rounds w :
  flushLoop v rounds w =
  if (0 <? chan_len (buffer w))%nat then
    match rounds with
    | [] => Ok false w
    | ss :: rounds' =>
        (do time_Sleep (100 * Millisecond) then
         do workerRun v ss then
         flushLoop v rounds') w
    end
  else Ok true w.
Proof. by destruct rounds. Qed.

Lemma flushLoop_left v rounds : forall w w',
  flushLoop v rounds w = Ok true w' -> chan_len (buffer w') = 0%nat.
Proof.
  induction rounds as [|ss rounds IH]; intros w w'; rewrite flushLoop_unfold;
    destruct (Nat.ltb_spec 0 (chan_len (buffer w))) as [Hpos|Hzero];
    try (intros [= <-]; lia); try done.
  unfold bind, time_Sleep, modify.
  destruct (workerRun v ss _) as [[] w1|m]; [|done]. apply IH.
Qed.

(** X12. Whenever [Flush] returns, it returns the nil error, and in
    asynchronous mode the buffer holds no entry at that moment. In synchronous
    mode it returns at once and changes nothing. *)
Theorem Flush_returns_when_drained v rounds w r w' :
  Flush v rounds w = Ok (Some r) w' ->
  r = None /\
  (Async (config v) = true -> chan_len (buffer w') = 0%nat) /\
  (Async (config v) = false -> w' = w).
Proof.
  unfold Flush. destruct (Async (config v)); simpl.
  - unfold bind, ret. destruct (flushLoop v rounds w) as [[|] w1|m] eqn:Hloop; [|done|done].
    intros [= <- <-]. split; [done|]. split; [|done].
    intros _. eapply flushLoop_left, Hloop.
  - intros [= <- <-]. by repeat split.
Qed.

(** X13. In asynchronous mode [Flush] never returns when no worker is running
    and the buffer holds an entry, as after a [Close] that has left entries
    behind: whatever the number of polls, it is still polling, with the
    buffer as it was. *)
Theorem Flush_polls_forever_without_worker v w :
  Async (config v) = true ->
  is_running (worker w) = false ->
  (0 < chan_len (buffer w))%nat ->
  forall rounds, exists w',
    Flush v rounds w = Ok None w' /\ buffer w' = buffer w /\
    now w' = now w + Z.of_nat (length rounds) * (100 * Millisecond).
Proof.
  intros Hasync Hw Hlen rounds. unfold Flush. rewrite Hasync. simpl.
  unfold bind, ret.
  assert (Hloop : forall w0, is_running (worker w0) = false ->
            (0 < chan_len (buffer w0))%nat ->
            exists w', flushLoop v rounds w0 = Ok false w' /\ buffer w' = buffer w0 /\
                       now w' = now w0 + Z.of_nat (length rounds) * (100 * Millisecond)).
  { clear w Hw Hlen. induction rounds as [|ss rounds IH]; intros w Hw Hlen;
      rewrite flushLoop_unfold;
      destruct (Nat.ltb_spec 0 (chan_len (buffer w))) as [_|?]; try lia.
    - exists w. simpl. split; [done|]. split; [done|]. lia.
    - unfold bind, time_Sleep, modify. rewrite workerRun_stopped by done.
      match goal with |- context [flushLoop v rounds ?w0] =>
        destruct (IH w0) as (w' & -> & Hb & Hnow); [done|done|] end.
      exists w'. split; [done|]. split; [by rewrite Hb|].
      rewrite Hnow. cbn [now set_net set_now length]. unfold Millisecond. lia. }
  destruct (Hloop w Hw Hlen) as (w' & -> & Hb & Hnow). eauto.
Qed.

(** X14. With a worker that waits with an empty batch on the open buffer,
    [Flush] returns as soon as the rounds of the worker during its polls have
    taken up every buffered entry: it returns the nil error with the buffer
    empty and each buffered entry sent once, alone, in the order of the
    buffer. *)
Theorem Flush_returns_after_worker_drains v rounds : forall w,
  Async (config v) = true ->
  worker w = Running [] ->
  ch_closed (buffer w) = false ->
  (0 < ch_cap (buffer w))%nat ->
  Forall (Forall (fun s => s <> OnDone)) rounds ->
  (length (ch_items (buffer w)) <= arrivals (concat rounds))%nat ->
  exists w',
    Flush v rounds w = Ok (Some None) w' /\
    ch_items (buffer w') = [] /\
    flushes (stdout w') = flushes (stdout w) ++ map (fun e => [e]) (ch_items (buffer w)) /\
    worker w' = Running [].
Proof.
  intros w Hasync. unfold Flush. rewrite Hasync. simpl. unfold bind at 1, ret.
  revert w.
  assert (Hloop : forall w,
    worker w = Running [] -> ch_closed (buffer w) = false ->
    (0 < ch_cap (buffer w))%nat ->
    Forall (Forall (fun s => s <> OnDone)) rounds ->
    (length (ch_items (buffer w)) <= arrivals (concat rounds))%nat ->
    exists w', flushLoop v rounds w = Ok true w' /\ ch_items (buffer w') = [] /\
               flushes (stdout w')
                 = flushes (stdout w) ++ map (fun e => [e]) (ch_items (buffer w)) /\
               worker w' = Running []).
  { induction rounds as [|ss rounds IH]; intros w Hw Hopen Hcap Hok Hlen;
      rewrite flushLoop_unfold; unfold chan_len;
      destruct (Nat.eqb_spec (ch_cap (buffer w)) 0) as [?|_]; try lia;
      destruct (Nat.ltb_spec 0 (length (ch_items (buffer w)))) as [Hpos|Hzero].
    - simpl in Hlen. lia.
    - exists w. destruct (ch_items (buffer w)); [|simpl in Hzero; lia].
      simpl. by rewrite app_nil_r.
    - apply Forall_cons in Hok as [Hss Hok].
      unfold bind, time_Sleep, modify.
      set (w0 := set_net _ _).
      destruct (workerRun_arrivals v ss w0) as (w1 & -> & Hw1 & Hit & Hfl & Hl & _);
        [done|done|done|].
      destruct (IH w1) as (w' & -> & Hempty & Hfl' & Hw'); [done| | |done| |].
      + destruct Hl as (_ & -> & _). exact Hopen.
      + destruct Hl as (_ & _ & -> & _). exact Hcap.
      + rewrite Hit, length_drop. cbn [concat] in Hlen. rewrite arrivals_app in Hlen.
        cbn [w0 buffer set_net set_now]. lia.
      + exists w'. split; [done|]. split; [done|]. split; [|done].
        rewrite Hfl', Hfl, Hit. cbn [w0 buffer stdout set_net set_now].
        rewrite <- app_assoc, <- map_app, take_drop. done.
    - exists w. destruct (ch_items (buffer w)); [|simpl in Hzero; lia].
      simpl. by rewrite app_nil_r. }
  intros w Hw Hopen Hcap Hok Hlen.
  destruct (Hloop w Hw Hopen Hcap Hok Hlen) as (w' & -> & Hrest). eauto.
Qed.

End FlushProps.

Lemma Flush_returns_when_drained_witness :
  Flush (H := plainMarshal) (rootLogger demoConfig) [[OnEntry]; [OnTick; OnEntry; OnEntry]]
    (backlog (H := plainMarshal))
  = Ok (Some None)
       (after (Flush (H := plainMarshal) (rootLogger demoConfig)
                 [[OnEntry]; [OnTick; OnEntry; OnEntry]]) (backlog (H := plainMarshal))) /\
  chan_len (buffer (after (Flush (H := plainMarshal) (rootLogger demoConfig)
                             [[OnEntry]; [OnTick; OnEntry; OnEntry]])
                          (backlog (H := plainMarshal)))) = 0%nat.
Proof.
  assert (Hrun : Flush (H := plainMarshal) (rootLogger demoConfig)
                   [[OnEntry]; [OnTick; OnEntry; OnEntry]] (backlog (H := plainMarshal))
                 = Ok (Some None)
                      (after (Flush (H := plainMarshal) (rootLogger demoConfig)
                                [[OnEntry]; [OnTick; OnEntry; OnEntry]])
                             (backlog (H := plainMarshal)))).
  { vm_compute. reflexivity. }
  split; [exact Hrun|].
  destruct (Flush_returns_when_drained (H := plainMarshal) _ _ _ _ _ Hrun) as (_ & Hlen & _).
  apply Hlen. reflexivity.
Defined.

Lemma Flush_polls_forever_without_worker_witness :
  exists w1 w',
    Close (H := plainMarshal) (rootLogger demoConfig) [] (backlog (H := plainMarshal))
      = Ok None w1 /\
    Flush (H := plainMarshal) (rootLogger demoConfig) [[]; [OnEntry]; [OnEntry; OnTick]] w1
      = Ok None w'.
Proof.
  exists (after (Close (H := plainMarshal) (rootLogger demoConfig) [])
                (backlog (H := plainMarshal))).
  destruct (Flush_polls_forever_without_worker (H := plainMarshal) (rootLogger demoConfig)
              (after (Close (H := plainMarshal) (rootLogger demoConfig) [])
                     (backlog (H := plainMarshal))))
    with (rounds := [[]; [OnEntry]; [OnEntry; OnTick]]) as (w' & Hrun & _).
  - reflexivity.
  - vm_compute. reflexivity.
  - vm_compute. lia.
  - exists w'. split; [vm_compute; reflexivity|exact Hrun].
Defined.

Lemma Flush_returns_after_worker_drains_witness :
  exists w',
    Flush (H := plainMarshal) (rootLogger demoConfig) [[OnEntry]; [OnTick; OnEntry; OnEntry]]
      (backlog (H := plainMarshal)) = Ok (Some None) w' /\
    flushes (stdout w') = [[sampleEntry "one"]; [sampleEntry "two"]; [sampleEntry "three"]].
Proof.
  destruct (Flush_returns_after_worker_drains (H := plainMarshal) (rootLogger demoConfig)
              [[OnEntry]; [OnTick; OnEntry; OnEntry]] (backlog (H := plainMarshal)))
    as (w' & Hrun & _ & Hfl & _).
  - reflexivity.
  - reflexivity.
  - reflexivity.
  - vm_compute. lia.
  - repeat constructor; discriminate.
  - vm_compute. lia.
  - exists w'. split; [exact Hrun|]. rewrite Hfl. reflexivity.
Defined.

(** ** The user service *)

Lemma bind_Ok {A B} (c : M A) (k : A -> M B) w a w' :
  c w = Ok a w' -> (let* x := c in k x) w = k a w'.
Proof. unfold bind. by intros ->. Qed.

Lemma bind_Panic {A B} (c : M A) (k : A -> M B) w m :
  c w = Panic m -> (let* x := c in k x) w = Panic m.
Proof. unfold bind. by intros ->. Qed.

Section ServiceProps.
Context `{!Marshaller}.

(** A log call with a made map returns unless it sends on a closed buffer. *)
Lemma log_made_ok v c info msg l w :
  (Async (config v) = true -> ch_closed (buffer w) = false) ->
  exists w', log v c info msg (Some l) w = Ok tt w' /\
             ch_closed (buffer w') = ch_closed (buffer w) /\
             (forall l', l' ∈ dom (heap w) -> l' ∈ dom (heap w')).
Proof.
  intros Hopen.
  destruct (createLogEntry_made v info msg l w) as (h' & Hc & _ & _ & Hd).
  rewrite log_unfold, logEntry_unfold, Hc. unfold offer.
  destruct (Async (config v)).
  - unfold bind, buffer_try_send, ret. cbn [buffer set_heap].
    rewrite (Hopen eq_refl).
    destruct (_ || _); eexists; (split; [reflexivity|]); split; try done;
      cbn [buffer set_buffer set_heap ch_closed]; by rewrite ?Hopen.
  - destruct (sendBatch_ok v [withUser c (withTrace c
                (mkLogEntry info msg (now w) (serviceName v) "" "" (Some l)))]
                (set_heap h' w)) as (w' & -> & Hsh & _).
    exists w'. split; [done|]. destruct Hsh as (Hh & Hb & _).
    rewrite Hb, Hh. done.
Qed.

Lemma log_made_closed v c info msg l w :
  Async (config v) = true -> ch_closed (buffer w) = true ->
  log v c info msg (Some l) w = Panic "send on closed channel".
Proof.
  intros Hasync Hclosed.
  destruct (createLogEntry_made v info msg l w) as (h' & Hc & _).
  rewrite log_unfold, logEntry_unfold, Hc. unfold offer, bind. rewrite Hasync.
  by rewrite buffer_try_send_closed.
Qed.

(** X15. [CreateUser] returns the error "failed to create user" exactly for
    the user name "invalid" and the nil error for every other user. As long
    as the logger is synchronous or its buffer is open, the outcome does not
    depend on the logging at all: not on the endpoint, nor on the room in the
    buffer. *)
Theorem CreateUser_result s c user w :
  (Async (config (logger s)) = true -> ch_closed (buffer w) = false) ->
  exists w',
    CreateUser s c user w
    = Ok (if String.eqb (Username user) "invalid"
          then Some "failed to create user" else None) w'.
Proof.
  intros Hopen. unfold CreateUser.
  rewrite (bind_Ok (gets now) _ w (now w) w eq_refl).
  erewrite bind_Ok by reflexivity.
  match goal with |- context [Info (logger s) c ?msg (Some ?l)] =>
    destruct (log_made_ok (logger s) c INFO msg l
                (set_heap (<[l := list_to_map
                      [("user_id", AString (ID user));
                       ("username", AString (Username user));
                       ("email", AString (Email user));
                       ("action", AString "create_user_start")]]> (heap w)) w))
      as (w1 & Hlog1 & Hcl1 & _); [exact Hopen|] end.
  unfold Info at 1. rewrite (bind_Ok _ _ _ _ _ Hlog1).
  erewrite bind_Ok by reflexivity.
  destruct (String.eqb (Username user) "invalid").
  - erewrite bind_Ok by reflexivity. erewrite bind_Ok by reflexivity.
    match goal with |- context [bind (Error (logger s) c ?msg (Some ?l)) _ ?w0] =>
      destruct (log_made_ok (logger s) c ERROR msg l w0) as (w2 & Hlog2 & _) end.
    { intros Ha. cbn [buffer set_heap set_net set_now]. rewrite Hcl1. by apply Hopen. }
    unfold Error. rewrite (bind_Ok _ _ _ _ _ Hlog2). eauto.
  - erewrite bind_Ok by reflexivity. erewrite bind_Ok by reflexivity.
    match goal with |- context [bind (Info (logger s) c ?msg (Some ?l)) _ ?w0] =>
      destruct (log_made_ok (logger s) c INFO msg l w0) as (w2 & Hlog2 & _) end.
    { intros Ha. cbn [buffer set_heap set_net set_now]. rewrite Hcl1. by apply Hopen. }
    unfold Info. rewrite (bind_Ok _ _ _ _ _ Hlog2). eauto.
Qed.

(** X16. [GetUser] returns, for every identifier, the demo user with that
    identifier and the nil error, as long as the logger is synchronous or its
    buffer is open. *)
Theorem GetUser_result s c id w :
  (Async (config (logger s)) = true -> ch_closed (buffer w) = false) ->
  exists w',
    GetUser s c id w = Ok (Some (mkUser id "Demo User" "demo@example.com"), None) w'.
Proof.
  intros Hopen. unfold GetUser.
  rewrite (bind_Ok (gets now) _ w (now w) w eq_refl).
  erewrite bind_Ok by reflexivity.
  match goal with |- context [bind (Debug (logger s) c ?msg (Some ?l)) _ ?w0] =>
    destruct (log_made_ok (logger s) c DEBUG msg l w0) as (w1 & Hlog1 & Hcl1 & _);
      [exact Hopen|] end.
  unfold Debug at 1. rewrite (bind_Ok _ _ _ _ _ Hlog1).
  erewrite bind_Ok by reflexivity. erewrite bind_Ok by reflexivity.
  erewrite bind_Ok by reflexivity.
  match goal with |- context [bind (Info (logger s) c ?msg (Some ?l)) _ ?w0] =>
    destruct (log_made_ok (logger s) c INFO msg l w0) as (w2 & Hlog2 & _) end.
  { intros Ha. cbn [buffer set_heap set_net set_now]. rewrite Hcl1. by apply Hopen. }
  unfold Info. rewrite (bind_Ok _ _ _ _ _ Hlog2). eauto.
Qed.

(** X17. After a [Close] that has returned, a service on a logger in
    asynchronous mode does not survive its first log call: [CreateUser] and
    [GetUser] end in the run-time panic of a send on the closed buffer
    channel. *)
Theorem service_after_Close_panics s v0 ss w r w1 :
  Close v0 ss w = Ok r w1 ->
  Async (config (logger s)) = true ->
  (forall c user, CreateUser s c user w1 = Panic "send on closed channel") /\
  (forall c id, GetUser s c id w1 = Panic "send on closed channel").
Proof.
  intros Hclose Hasync.
  pose proof (Close_closes _ _ _ _ _ Hclose) as Hclosed.
  split.
  - intros c user. unfold CreateUser.
    rewrite (bind_Ok (gets now) _ w1 (now w1) w1 eq_refl).
    erewrite bind_Ok by reflexivity.
    unfold Info at 1. erewrite bind_Panic; [done|].
    by apply log_made_closed.
  - intros c id. unfold GetUser.
    rewrite (bind_Ok (gets now) _ w1 (now w1) w1 eq_refl).
    erewrite bind_Ok by reflexivity.
    unfold Debug at 1. erewrite bind_Panic; [done|].
    by apply log_made_closed.
Qed.

End ServiceProps.

Lemma CreateUser_result_witness :
  exists w',
    CreateUser (H := plainMarshal) (NewUserService (rootLogger syncConfig)) Background
      (mkUser "user_1729488000" "invalid" "john@example.com")
      (started syncConfig alwaysDown 0) = Ok (Some "failed to create user") w'.
Proof.
  destruct (CreateUser_result (H := plainMarshal) (NewUserService (rootLogger syncConfig))
              Background (mkUser "user_1729488000" "invalid" "john@example.com")
              (started syncConfig alwaysDown 0)) as (w' & Hrun).
  - discriminate.
  - exists w'. exact Hrun.
Defined.

Lemma GetUser_result_witness :
  exists w',
    GetUser (H := plainMarshal) (NewUserService (rootLogger demoConfig)) Background ""
      (saturated (H := plainMarshal))
    = Ok (Some (mkUser "" "Demo User" "demo@example.com"), None) w'.
Proof.
  destruct (GetUser_result (H := plainMarshal) (NewUserService (rootLogger demoConfig))
              Background "" (saturated (H := plainMarshal))) as (w' & Hrun).
  - intros _. reflexivity.
  - exists w'. exact Hrun.
Defined.

Lemma service_after_Close_panics_witness :
  exists w1,
    Close (H := plainMarshal) (rootLogger demoConfig) [] (started demoConfig alwaysUp 0)
      = Ok None w1 /\
    GetUser (H := plainMarshal) (NewUserService (rootLogger demoConfig)) Background
      "user_1729488000" w1 = Panic "send on closed channel".
Proof.
  destruct (Close_first (H := plainMarshal) (rootLogger demoConfig) []
              (started demoConfig alwaysUp 0)) as (w1 & Hrun & _); [done|done|].
  exists w1. split; [exact Hrun|].
  destruct (service_after_Close_panics (H := plainMarshal)
              (NewUserService (rootLogger demoConfig)) (rootLogger demoConfig) []
              (started demoConfig alwaysUp 0) None w1 Hrun) as [_ Hget].
  - reflexivity.
  - apply Hget.
Defined.

(** ** Asynchronous hand-over *)

Section AsyncHandOver.
Context `{!Marshaller}.

(** The entry a log call builds from the call and the logger, and where it
    goes in asynchronous mode. *)
Lemma log_async_made v c info msg l w :
  Async (config v) = true ->
  ch_closed (buffer w) = false ->
  exists h',
    log v c info msg (Some l) w
    = Ok tt (if (length (ch_items (buffer w)) <? ch_cap (buffer w))%nat
                || (is_running (worker w) && is_nil (ch_items (buffer w)))
             then set_buffer
                    (mkChan (ch_cap (buffer w))
                       (ch_items (buffer w) ++
                          [withUser c (withTrace c
                             (mkLogEntry info msg (now w) (serviceName v) "" "" (Some l)))])
                       false)
                    (set_heap h' w)
             else set_heap h' w) /\
    (forall l', l' ∈ dom (heap w) -> l' ∈ dom h').
Proof.
  intros Hasync Hopen.
  destruct (createLogEntry_made v info msg l w) as (h' & Hc & _ & _ & Hd).
  exists h'. split; [|exact Hd].
  rewrite log_unfold, logEntry_unfold, Hc. unfold offer, bind. rewrite Hasync.
  unfold buffer_try_send. cbn [buffer set_heap worker]. rewrite Hopen.
  by destruct (_ || _).
Qed.

(** X18. In asynchronous mode a log call does no input or output of its own:
    on an open buffer it returns with the network trace, the clock and the
    standard output as they were, and the buffer either longer by the one
    entry of the call, put at its end, or unchanged. *)
Theorem async_log_does_no_io v c info msg l w :
  Async (config v) = true ->
  ch_closed (buffer w) = false ->
  exists w',
    log v c info msg (Some l) w = Ok tt w' /\
    net w' = net w /\ now w' = now w /\ stdout w' = stdout w /\
    worker w' = worker w /\
    (ch_items (buffer w') = ch_items (buffer w) \/
     exists e, ch_items (buffer w') = ch_items (buffer w) ++ [e] /\
               Level e = info /\ Message e = msg /\ Timestamp e = now w /\
               Service e = serviceName v /\ Fields e = Some l).
Proof.
  intros Hasync Hopen.
  destruct (log_async_made v c info msg l w Hasync Hopen) as (h' & -> & _).
  destruct (_ || _); eexists; (split; [reflexivity|]); repeat (split; [done|]).
  - right. eexists. split; [reflexivity|].
    destruct (withUser_rest c (withTrace c
                (mkLogEntry info msg (now w) (serviceName v) "" "" (Some l))))
      as (-> & -> & -> & -> & ->).
    destruct (withTrace_rest c
                (mkLogEntry info msg (now w) (serviceName v) "" "" (Some l)))
      as (-> & -> & -> & -> & ->).
    done.
  - by left.
Qed.

(** X19. In asynchronous mode, on an open buffer with room for two entries,
    [CreateUser] leaves exactly two entries at the end of the buffer: first
    the entry "Create new User" at level INFO, then "Failed to create user"
    at level ERROR for the user name "invalid" and "Create new User" at level
    INFO otherwise. Both carry the service name of the logger and the
    correlation values of the request context, and each has a new map of its
    own for its fields. *)
Theorem CreateUser_enqueues_two s c user w :
  Async (config (logger s)) = true ->
  ch_closed (buffer w) = false ->
  (length (ch_items (buffer w)) + 2 <= ch_cap (buffer w))%nat ->
  exists e1 e2 r w',
    CreateUser s c user w = Ok r w' /\
    ch_items (buffer w') = ch_items (buffer w) ++ [e1; e2] /\
    Level e1 = INFO /\ Message e1 = "Create new User" /\
    Level e2 = (if String.eqb (Username user) "invalid" then ERROR else INFO) /\
    Message e2 = (if String.eqb (Username user) "invalid"
                  then "Failed to create user" else "Create new User") /\
    Service e1 = serviceName (logger s) /\ Service e2 = serviceName (logger s) /\
    TraceID e1 = textOf (ctx_Value c "trace_id") /\
    TraceID e2 = textOf (ctx_Value c "trace_id") /\
    UserID e1 = textOf (ctx_Value c "user_id") /\
    UserID e2 = textOf (ctx_Value c "user_id") /\
    Fields e1 <> Fields e2 /\
    (forall l, Fields e1 = Some l \/ Fields e2 = Some l -> l ∉ dom (heap w)).
Proof.
  intros Hasync Hopen Hroom. unfold CreateUser.
  rewrite (bind_Ok (gets now) _ w (now w) w eq_refl).
  erewrite bind_Ok by reflexivity.
  set (l1 := fresh (dom (heap w))).
  match goal with |- context [bind (Info (logger s) c ?msg (Some l1)) _ ?w0] =>
    set (wa := w0);
    destruct (log_async_made (logger s) c INFO msg l1 wa Hasync) as (h1 & Hlog1 & Hd1);
      [exact Hopen|] end.
  assert (Hcond1 : ((length (ch_items (buffer wa)) <? ch_cap (buffer wa))%nat
                    || (is_running (worker wa) && is_nil (ch_items (buffer wa)))) = true).
  { cbn [wa buffer set_heap]. apply orb_true_iff. left. apply Nat.ltb_lt. lia. }
  rewrite Hcond1 in Hlog1.
  unfold Info at 1. rewrite (bind_Ok _ _ _ _ _ Hlog1).
  erewrite bind_Ok by reflexivity.
  set (e1 := withUser c (withTrace c
               (mkLogEntry INFO "Create new User" (now wa) (serviceName (logger s))
                  "" "" (Some l1)))) in *.
  assert (Hl1 : l1 ∈ dom h1).
  { apply Hd1. cbn [wa heap set_heap]. rewrite dom_insert_L. set_solver. }
  assert (He1 : Level e1 = INFO /\ Message e1 = "Create new User" /\
                Service e1 = serviceName (logger s) /\
                TraceID e1 = textOf (ctx_Value c "trace_id") /\
                UserID e1 = textOf (ctx_Value c "user_id") /\ Fields e1 = Some l1).
  { subst e1.
    destruct (withUser_rest c (withTrace c
                (mkLogEntry INFO "Create new User" (now wa) (serviceName (logger s))
                   "" "" (Some l1)))) as (-> & -> & _ & -> & ->).
    destruct (withTrace_rest c
                (mkLogEntry INFO "Create new User" (now wa) (serviceName (logger s))
                   "" "" (Some l1))) as (-> & -> & _ & -> & ->).
    rewrite withUser_TraceID, withTrace_TraceID by done.
    rewrite withUser_UserID by (by rewrite withTrace_UserID). done. }
  destruct He1 as (HL1 & HM1 & HS1 & HT1 & HU1 & HF1).
  destruct (String.eqb (Username user) "invalid").
  - erewrite bind_Ok by reflexivity. erewrite bind_Ok by reflexivity.
    match goal with |- context [bind (Error (logger s) c ?msg (Some ?l2)) _ ?w0] =>
      set (wb := w0); set (l2' := l2) in *;
      destruct (log_async_made (logger s) c ERROR msg l2' wb Hasync) as (h2 & Hlog2 & _);
        [reflexivity|] end.
    assert (Hcond2 : ((length (ch_items (buffer wb)) <? ch_cap (buffer wb))%nat
                      || (is_running (worker wb) && is_nil (ch_items (buffer wb)))) = true).
    { cbn [wb wa buffer set_heap set_net set_now set_buffer ch_items ch_cap].
      apply orb_true_iff. left. apply Nat.ltb_lt. rewrite length_app. simpl. lia. }
    rewrite Hcond2 in Hlog2. unfold Error. rewrite (bind_Ok _ _ _ _ _ Hlog2).
    set (e2 := withUser c (withTrace c
                 (mkLogEntry ERROR "Failed to create user" (now wb)
                    (serviceName (logger s)) "" "" (Some l2')))) in *.
    assert (Hl2 : l2' ∉ dom h1).
    { subst l2'. cbn [heap set_heap set_net set_now set_buffer]. apply is_fresh. }
    exists e1, e2. eexists _, _. split; [reflexivity|].
    cbn [wb wa buffer set_heap set_net set_now set_buffer ch_items ch_cap].
    rewrite <- app_assoc. split; [done|].
    subst e2.
    destruct (withUser_rest c (withTrace c
                (mkLogEntry ERROR "Failed to create user" (now wb)
                   (serviceName (logger s)) "" "" (Some l2')))) as (-> & -> & _ & -> & ->).
    destruct (withTrace_rest c
                (mkLogEntry ERROR "Failed to create user" (now wb)
                   (serviceName (logger s)) "" "" (Some l2'))) as (-> & -> & _ & -> & ->).
    rewrite withUser_TraceID, withTrace_TraceID by done.
    rewrite withUser_UserID by (by rewrite withTrace_UserID).
    rewrite HF1. cbn [Level Message Service Fields].
    repeat (split; [done|]). split.
    + intros [= Heq]. apply Hl2. by rewrite <- Heq.
    + intros l [[= <-]|[= <-]].
      * apply is_fresh.
      * intros Hin. apply Hl2, Hd1. cbn [wa heap set_heap]. rewrite dom_insert_L.
        set_solver.
  - erewrite bind_Ok by reflexivity. erewrite bind_Ok by reflexivity.
    match goal with |- context [bind (Info (logger s) c ?msg (Some ?l2)) _ ?w0] =>
      set (wb := w0); set (l2' := l2) in *;
      destruct (log_async_made (logger s) c INFO msg l2' wb Hasync) as (h2 & Hlog2 & _);
        [reflexivity|] end.
    assert (Hcond2 : ((length (ch_items (buffer wb)) <? ch_cap (buffer wb))%nat
                      || (is_running (worker wb) && is_nil (ch_items (buffer wb)))) = true).
    { cbn [wb wa buffer set_heap set_net set_now set_buffer ch_items ch_cap].
      apply orb_true_iff. left. apply Nat.ltb_lt. rewrite length_app. simpl. lia. }
    rewrite Hcond2 in Hlog2. unfold Info. rewrite (bind_Ok _ _ _ _ _ Hlog2).
    set (e2 := withUser c (withTrace c
                 (mkLogEntry INFO "Create new User" (now wb)
                    (serviceName (logger s)) "" "" (Some l2')))) in *.
    assert (Hl2 : l2' ∉ dom h1).
    { subst l2'. cbn [heap set_heap set_net set_now set_buffer]. apply is_fresh. }
    exists e1, e2. eexists _, _. split; [reflexivity|].
    cbn [wb wa buffer set_heap set_net set_now set_buffer ch_items ch_cap].
    rewrite <- app_assoc. split; [done|].
    subst e2.
    destruct (withUser_rest c (withTrace c
                (mkLogEntry INFO "Create new User" (now wb)
                   (serviceName (logger s)) "" "" (Some l2')))) as (-> & -> & _ & -> & ->).
    destruct (withTrace_rest c
                (mkLogEntry INFO "Create new User" (now wb)
                   (serviceName (logger s)) "" "" (Some l2'))) as (-> & -> & _ & -> & ->).
    rewrite withUser_TraceID, withTrace_TraceID by done.
    rewrite withUser_UserID by (by rewrite withTrace_UserID).
    rewrite HF1. cbn [Level Message Service Fields].
    repeat (split; [done|]). split.
    + intros [= Heq]. apply Hl2. by rewrite <- Heq.
    + intros l [[= <-]|[= <-]].
      * apply is_fresh.
      * intros Hin. apply Hl2, Hd1. cbn [wa heap set_heap]. rewrite dom_insert_L.
        set_solver.
Qed.

End AsyncHandOver.

Lemma async_log_does_no_io_witness :
  exists w',
    Info (H := plainMarshal) userLogger Background "Create new User" (Some 4%nat) callerWorld
      = Ok tt w' /\
    net w' = [] /\ length (ch_items (buffer w')) = 1%nat.
Proof.
  destruct (async_log_does_no_io (H := plainMarshal) userLogger Background INFO
              "Create new User" 4%nat callerWorld)
    as (w' & Hrun & Hnet & _ & _ & _ & Hbuf).
  - reflexivity.
  - reflexivity.
  - exists w'. split; [exact Hrun|]. split; [by rewrite Hnet|].
    assert (Hitems : ch_items (buffer w')
                     = [withUser Background (withTrace Background
                          (mkLogEntry INFO "Create new User" 0 "user-api" "" ""
                             (Some 4%nat)))]).
    { vm_compute in Hrun. injection Hrun as <-. reflexivity. }
    by rewrite Hitems.
Defined.

Lemma CreateUser_enqueues_two_witness :
  exists e1 e2 r w',
    CreateUser (H := plainMarshal) (NewUserService (rootLogger demoConfig))
      (WithValue Background "trace_id" (AString "trace_abc123"))
      (mkUser "user_1729488000" "invalid" "john@example.com")
      (started demoConfig alwaysUp 0) = Ok r w' /\
    ch_items (buffer w') = [e1; e2] /\
    Level e2 = ERROR /\ TraceID e2 = "trace_abc123".
Proof.
  destruct (CreateUser_enqueues_two (H := plainMarshal)
              (NewUserService (rootLogger demoConfig))
              (WithValue Background "trace_id" (AString "trace_abc123"))
              (mkUser "user_1729488000" "invalid" "john@example.com")
              (started demoConfig alwaysUp 0))
    as (e1 & e2 & r & w' & Hrun & Hbuf & _ & _ & Hlevel & _ & _ & _ & _ & Htid & _).
  - reflexivity.
  - reflexivity.
  - vm_compute. lia.
  - exists e1, e2, r, w'. split; [exact Hrun|]. split; [exact Hbuf|].
    split; [exact Hlevel|exact Htid].
Defined.
